(** * The libriheavy matching pipeline ([examples/libriheavy/matching.py])

    A shallow embedding of the batch alignment-and-segmentation driver:
    [load_data], [align], [split], [write], [process_one_batch] and the
    batching loop of [main].

    Conventions.
    - Python lists are [list]s, [dict]s with string keys are [gmap string _],
      the [set] of book paths is a [gset string]; a dict with a fixed shape
      (a segment, the [custom] block of a supervision) is a record.
    - Seconds (start times, durations) are only copied by this file, never
      computed with; they are rationals [Q].
    - Effects are explicit: a computation yields the trace of the observable
      events it performed (log records, files opened, calls into the
      alignment and segmentation drivers, records handed to the manifest
      writer) together with either a value or the exception it raised.
    - The [textsearch] package ([Transcript], [TextSource], [SourcedText],
      [align_queries], ...) is imported by the script and is not part of it:
      it is the interface [TextSearch], over which every definition is
      parameterised. *)

From stdpp Require Import base strings list gmap pretty.
From Stdlib Require Import ZArith QArith_base.

Local Open Scope Z_scope.
#[local] Set Warnings "-clear-no-such-hyp".

(** ** The corpus data model (lhotse) *)

(** One entry of [sup.alignment["symbol"]]. *)
Record AlignmentItem := {
  ali_symbol : string;
  ali_start : Q;
}.

Record Recording := {
  rec_id : string;
}.

(** The [custom] dict that [write] attaches to a supervision. The three text
    entries are two-element Python lists. *)
Record SupervisionCustom := {
  texts : list string;
  pre_texts : list string;
  post_texts : list string;
  begin_byte : Z;
  end_byte : Z;
}.

(** [sup_alignment] is the list [alignment["symbol"]]; it is empty for a
    supervision that carries no symbol alignment. *)
Record SupervisionSegment := {
  sup_id : string;
  sup_recording_id : string;
  sup_start : Q;
  sup_duration : Q;
  sup_channel : Z;
  sup_language : option string;
  sup_speaker : option string;
  sup_alignment : list AlignmentItem;
  sup_custom : option SupervisionCustom;
}.

(** [cut_text_path] is the entry [text_path] of the cut's [custom] dict. *)
Record MonoCut := {
  cut_id : string;
  cut_start : Q;
  cut_duration : Q;
  cut_channel : Z;
  cut_supervisions : list SupervisionSegment;
  cut_recording : Recording;
  cut_text_path : string;
}.

(** One segment produced by [split], with the keys listed in its docstring. *)
Record Segment := {
  seg_begin_byte : Z;
  seg_end_byte : Z;
  seg_start_time : Q;
  seg_duration : Q;
  seg_hyp : string;
  seg_ref : string;
  seg_pre_ref : string;
  seg_pre_hyp : string;
  seg_post_ref : string;
  seg_post_hyp : string;
}.

(** ** Parameters ([get_params] merged with the command line) *)

Record Params := {
  use_utf8 : bool;
  is_bpe : bool;
  use_uppercase : bool;
  has_punctuation : bool;
  num_close_matches : Z;
  segment_length : Z;
  reference_length_difference : Q;
  min_matched_query_ratio : Q;
  preceding_context_length : Z;
  timestamp_position : string;
  silence_length_to_break : Q;
  min_duration : Q;
  max_duration : Q;
  expected_duration : Q * Q;
  max_error_rate : Q;
  batch_size : Z;
}.

Definition get_params (batch_size : Z) : Params := {|
  use_utf8 := false;
  is_bpe := true;
  use_uppercase := true;
  has_punctuation := true;
  num_close_matches := 2;
  segment_length := 5000;
  reference_length_difference := 1 # 10;
  min_matched_query_ratio := 33 # 100;
  preceding_context_length := 1000;
  timestamp_position := "current";
  silence_length_to_break := 45 # 100;
  min_duration := 2 # 1;
  max_duration := 30 # 1;
  expected_duration := (5 # 1, 20 # 1)%Q;
  max_error_rate := 20 # 100;
  batch_size := batch_size;
|}.

(** ** Effects: traces and exceptions *)

Inductive level := DEBUG | INFO | WARNING.

Inductive event :=
  | Log (lvl : level) (msg : string)
  | OpenRead (path : string)
  | AlignQueries
  | SplitAlignedQueries
  | WriterWrite (cut : MonoCut) (flush : bool).

Inductive exn :=
  | AssertionError (num_query_tokens boundary : Z)
  | IndexError
  | KeyError
  | FileNotFoundError.

Inductive result (A : Type) :=
  | Return (a : A)
  | Raise (e : exn).
Arguments Return {A} a.
Arguments Raise {A} e.

(** A computation: the events performed, then the outcome. *)
Definition M (A : Type) : Type := list event * result A.

Definition trace {A} (m : M A) : list event := m.1.
Definition outcome {A} (m : M A) : result A := m.2.

Definition raise {A} (e : exn) : M A := ([], Raise e).
Definition emit (e : event) : M unit := ([e], Return ()).
Definition log (lvl : level) (msg : string) : M unit := emit (Log lvl msg).

#[global] Instance M_ret : MRet M := λ A a, ([], Return a).
#[global] Instance M_bind : MBind M := λ A B f m,
  match m.2 with
  | Return a => (m.1 ++ (f a).1, (f a).2)
  | Raise e => (m.1, Raise e)
  end.

Arguments M_ret : simpl never.
Arguments M_bind : simpl never.

(** [for x in l: st = f st x], stopping at the first exception. *)
Fixpoint foldM {A B} (f : B → A → M B) (b : B) (l : list A) : M B :=
  match l with
  | [] => mret b
  | x :: l => b' ← f b x; foldM f b' l
  end.

(** [enumerate(l)], counting from [n]. *)
Fixpoint enumerate_from {A} (n : nat) (l : list A) : list (nat * A) :=
  match l with
  | [] => []
  | x :: l => (n, x) :: enumerate_from (S n) l
  end.

Definition enumerate {A} (l : list A) : list (nat * A) := enumerate_from 0 l.

(** ** The interface of the [textsearch] package

    The script imports these names; their code is not in
    [examples/libriheavy/matching.py]. Only what the script itself reads is
    exposed: [binary_text] of a transcript (for [binary_text.size]) and
    [doc_splits] of a sourced text. [texts_to_sourced_texts] takes a list of
    transcripts or of text sources. [is_punctuation] is applied to
    [chr(int(c))], the character of code point [c]; here it takes the code
    point. *)
Class TextSearch := {
  Transcript : Type;
  TextSource : Type;
  SourcedText : Type;
  Alignment : Type;
  Transcript_from_dict (name : string) (text : list string)
    (begin_times : list Q) (use_utf8 is_bpe : bool) : Transcript;
  binary_text : Transcript → list Z;
  TextSource_from_str (name s : string)
    (use_utf8 has_punctuation : bool) : TextSource;
  texts_to_sourced_texts (sources : list (Transcript + TextSource))
    (uppercase : bool) : list SourcedText;
  append_texts : list SourcedText → SourcedText;
  filter_texts (t : SourcedText) (fn : Z → bool) : SourcedText;
  is_punctuation : Z → bool;
  doc_splits : SourcedText → list Z;
  align_queries (sourced_text : SourcedText) (num_query_tokens : Z)
    (num_close_matches segment_length : Z)
    (reference_length_difference min_matched_query_ratio : Q) :
    list Alignment;
  split_aligned_queries (sourced_text : SourcedText)
    (alignments : list Alignment) (cut_indexes : list (nat * nat))
    (preceding_context_length : Z) (timestamp_position : string)
    (silence_length_to_break min_duration max_duration : Q)
    (expected_duration : Q * Q) (max_error_rate : Q) :
    list ((nat * nat) * list Segment);
}.

(** Iterating over a Python [set] yields every member once, in an order the
    language does not fix. *)
Class SetOrder := {
  set_iter : gset string → list string;
  set_iter_perm (X : gset string) : set_iter X ≡ₚ elements X;
}.

(** The reference texts on disk: path to contents. *)
Definition isfile (fs : gmap string string) (path : string) : bool :=
  bool_decide (is_Some (fs !! path)).

(** [with open(path, "r") as f: f.read()] *)
Definition read_text (fs : gmap string string) (path : string) : M string :=
  match fs !! path with
  | Some s => emit (OpenRead path);; mret s
  | None => raise FileNotFoundError
  end.

Section pipeline.
Context {TS : TextSearch} {SO : SetOrder}.
Context (fs : gmap string string).

(** *** [load_data] *)

(** The local variables of [load_data] that its loops update. *)
Record LoadState := {
  transcripts : list Transcript;
  transcripts_cut_index : list (nat * nat);
  book_paths : gset string;
  num_query_tokens : Z;
}.

Definition load_init : LoadState := {|
  transcripts := []; transcripts_cut_index := [];
  book_paths := ∅; num_query_tokens := 0;
|}.

(** The dict that [load_data] returns when it is not empty. *)
Record RawData := {
  raw_num_query_tokens : Z;
  raw_cut_indexes : list (nat * nat);
  raw_sourced_text : SourcedText;
}.

(** Body of [for j, sup in enumerate(cut.supervisions)]. *)
Definition load_supervision (params : Params) (i : nat) (st : LoadState)
    (js : nat * SupervisionSegment) : LoadState :=
  let '(j, sup) := js in
  let text_list := ali_symbol <$> sup_alignment sup in
  let begin_times_list := ali_start <$> sup_alignment sup in
  if bool_decide (text_list ≠ []) then
    let transcript :=
      Transcript_from_dict (sup_id sup) text_list begin_times_list
        (use_utf8 params) (is_bpe params) in
    {| transcripts := transcripts st ++ [transcript];
       transcripts_cut_index := transcripts_cut_index st ++ [(i, j)];
       book_paths := book_paths st;
       num_query_tokens :=
         num_query_tokens st + Z.of_nat (length (binary_text transcript)) |}
  else st.

(** Body of [for i, cut in enumerate(batch_cuts)]. *)
Definition load_cut (params : Params) (worker_index : Z) (st : LoadState)
    (ic : nat * MonoCut) : M LoadState :=
  let '(i, cut) := ic in
  if negb (isfile fs (cut_text_path cut)) then
    log WARNING ("Worker[" +:+ pretty worker_index +:+ "] Skipping " +:+
                 cut_id cut +:+ " due to missing of reference book");;
    mret st
  else
    let st := foldl (load_supervision params i) st
                (enumerate (cut_supervisions cut)) in
    mret {| transcripts := transcripts st;
            transcripts_cut_index := transcripts_cut_index st;
            book_paths := book_paths st ∪ {[cut_text_path cut]};
            num_query_tokens := num_query_tokens st |}.

(** Body of [for i, book_path in enumerate(book_paths)]. *)
Definition load_book (params : Params) (books : list TextSource)
    (book_path : string) : M (list TextSource) :=
  book_text ← read_text fs book_path;
  let book :=
    TextSource_from_str book_path book_text
      (use_utf8 params) (has_punctuation params) in
  mret (books ++ [book]).

Definition _is_not_punc (c : Z) : bool := negb (is_punctuation c).

(** Lines 145-186 of [load_data]: the two loops, over the cuts and over the
    unique book paths. *)
Definition load_cuts_and_books (params : Params) (batch_cuts : list MonoCut)
    (worker_index : Z) : M (LoadState * list TextSource) :=
  log DEBUG ("Worker[" +:+ pretty worker_index +:+
             "] loading cuts and books");;
  st ← foldM (load_cut params worker_index) load_init (enumerate batch_cuts);
  books ← foldM (load_book params) [] (set_iter (book_paths st));
  mret (st, books).

(** Lines 193-209 of [load_data]: the sourced text of the batch. *)
Definition build_sourced_text (params : Params)
    (transcripts : list Transcript) (books : list TextSource) : SourcedText :=
  let sourced_transcript_lists :=
    texts_to_sourced_texts (inl <$> transcripts) (use_uppercase params) in
  let sourced_transcripts := append_texts sourced_transcript_lists in
  let sourced_book_list :=
    texts_to_sourced_texts (inr <$> books) (use_uppercase params) in
  let sourced_books := append_texts sourced_book_list in
  let sourced_books := filter_texts sourced_books _is_not_punc in
  append_texts [sourced_transcripts; sourced_books].

(** The [assert] of lines 213-216; indexing [doc_splits] past its end raises
    [IndexError] while the condition is evaluated. *)
Definition check_num_query_tokens (num_query_tokens : Z)
    (sourced_text : SourcedText) (num_transcripts : nat) : M unit :=
  match doc_splits sourced_text !! num_transcripts with
  | None => raise IndexError
  | Some boundary =>
      if bool_decide (num_query_tokens = boundary) then mret ()
      else raise (AssertionError num_query_tokens boundary)
  end.

(** [None] is the empty dict. *)
Definition load_data (params : Params) (batch_cuts : list MonoCut)
    (worker_index : Z) : M (option RawData) :=
  '(st, books) ← load_cuts_and_books params batch_cuts worker_index;
  if bool_decide (transcripts st = []) then mret None
  else
    log DEBUG ("Worker[" +:+ pretty worker_index +:+
               "] loading cuts and books done.");;
    let sourced_text := build_sourced_text params (transcripts st) books in
    log DEBUG ("Worker[" +:+ pretty worker_index +:+
               "] construct sourced_text done.");;
    check_num_query_tokens (num_query_tokens st) sourced_text
      (length (transcripts st));;
    mret (Some {| raw_num_query_tokens := num_query_tokens st;
                  raw_cut_indexes := transcripts_cut_index st;
                  raw_sourced_text := sourced_text |}).

(** *** [align] and [split] *)

Definition align (params : Params) (num_query_tokens : Z)
    (sourced_text : SourcedText) (worker_index : Z) : M (list Alignment) :=
  log DEBUG ("Worker[" +:+ pretty worker_index +:+ "] Aligning queries.");;
  emit AlignQueries;;
  let alignments :=
    align_queries sourced_text num_query_tokens
      (num_close_matches params) (segment_length params)
      (reference_length_difference params)
      (min_matched_query_ratio params) in
  log DEBUG ("Worker[" +:+ pretty worker_index +:+
             "] Aligning queries done.");;
  mret alignments.

Definition split (params : Params) (sourced_text : SourcedText)
    (alignments : list Alignment) (cut_indexes : list (nat * nat))
    (worker_index : Z) : M (list ((nat * nat) * list Segment)) :=
  log DEBUG ("Worker[" +:+ pretty worker_index +:+
             "] Splitting aligned query.");;
  emit SplitAlignedQueries;;
  let segments :=
    split_aligned_queries sourced_text alignments cut_indexes
      (preceding_context_length params) (timestamp_position params)
      (silence_length_to_break params) (min_duration params)
      (max_duration params) (expected_duration params)
      (max_error_rate params) in
  log DEBUG ("Worker[" +:+ pretty worker_index +:+
             "] Splitting aligned query done.");;
  mret segments.

(** *** [write] *)

(** The locals of [write] that its loops update. *)
Record WriteState := {
  cut_segment_index : gmap string nat;
  cut_list : list MonoCut;
}.

(** Lines 361-385: the supervision and the cut made for one segment. [sup]
    is [current_cut.supervisions[cut_indexes[1]]]. *)
Definition segment_cut (id : string) (current_cut : MonoCut)
    (sup : SupervisionSegment) (seg : Segment) : MonoCut :=
  let supervision := {|
    sup_id := id;
    sup_channel := sup_channel sup;
    sup_language := sup_language sup;
    sup_speaker := sup_speaker sup;
    sup_recording_id := rec_id (cut_recording current_cut);
    sup_start := 0%Q;
    sup_duration := seg_duration seg;
    sup_alignment := [];
    sup_custom := Some {|
      texts := [seg_ref seg; seg_hyp seg];
      pre_texts := [seg_pre_ref seg; seg_pre_hyp seg];
      post_texts := [seg_post_ref seg; seg_post_ref seg];
      begin_byte := seg_begin_byte seg;
      end_byte := seg_end_byte seg;
    |};
  |} in
  {| cut_id := id;
     cut_start := seg_start_time seg;
     cut_duration := seg_duration seg;
     cut_channel := cut_channel current_cut;
     cut_supervisions := [supervision];
     cut_recording := cut_recording current_cut;
     cut_text_path := cut_text_path current_cut |}.

(** Body of [for seg in segments]. *)
Definition write_segment (current_cut : MonoCut) (cut_indexes : nat * nat)
    (st : WriteState) (seg : Segment) : M WriteState :=
  match cut_segment_index st !! cut_id current_cut with
  | None => raise KeyError
  | Some n =>
      let id := cut_id current_cut +:+ "_" +:+ pretty n in
      let index := <[cut_id current_cut := S n]> (cut_segment_index st) in
      match cut_supervisions current_cut !! cut_indexes.2 with
      | None => raise IndexError
      | Some sup =>
          let cut := segment_cut id current_cut sup seg in
          mret {| cut_segment_index := index;
                  cut_list := cut_list st ++ [cut] |}
      end
  end.

(** Body of [for item in results]. *)
Definition write_item (batch_cuts : list MonoCut) (st : WriteState)
    (item : (nat * nat) * list Segment) : M WriteState :=
  let cut_indexes := item.1 in
  let segments := item.2 in
  match batch_cuts !! cut_indexes.1 with
  | None => raise IndexError
  | Some current_cut =>
      let st :=
        if bool_decide (cut_segment_index st !! cut_id current_cut = None)
        then {| cut_segment_index :=
                  <[cut_id current_cut := 0%nat]> (cut_segment_index st);
                cut_list := cut_list st |}
        else st in
      foldM (write_segment current_cut cut_indexes) st segments
  end.

Definition write_init : WriteState :=
  {| cut_segment_index := ∅; cut_list := [] |}.

(** The first loop of [write]: the records to be written. *)
Definition write_cuts (batch_cuts : list MonoCut)
    (results : list ((nat * nat) * list Segment)) : M (list MonoCut) :=
  st ← foldM (write_item batch_cuts) write_init results;
  mret (cut_list st).

(** Body of [for i, cut in enumerate(cut_list)]. *)
Definition write_one (len : nat) (_ : unit) (ic : nat * MonoCut) : M unit :=
  let '(i, cut) := ic in
  emit (WriterWrite cut (bool_decide (Z.of_nat i = Z.of_nat len - 1))).

Definition write (batch_cuts : list MonoCut)
    (results : list ((nat * nat) * list Segment)) : M unit :=
  cut_list ← write_cuts batch_cuts results;
  log DEBUG "Writing results.";;
  foldM (write_one (length cut_list)) () (enumerate cut_list);;
  log DEBUG "Write results done.".

(** *** [process_one_batch] *)

Definition process_one_batch (params : Params) (batch_cuts : list MonoCut) :
    M unit :=
  raw_data ← load_data params batch_cuts 0;
  match raw_data with
  | None => log WARNING "Raw data is empty."
  | Some raw_data =>
      aligned_data ←
        align params (raw_num_query_tokens raw_data)
          (raw_sourced_text raw_data) 0;
      if bool_decide (length aligned_data = 0%nat) then
        log WARNING "Aligned data is empty."
      else
        splited_data ←
          split params (raw_sourced_text raw_data) aligned_data
            (raw_cut_indexes raw_data) 0;
        if bool_decide (length splited_data = 0%nat) then
          log WARNING "Splitted data is empty."
        else write batch_cuts splited_data
  end.

(** *** The batching loop of [main] (lines 451-473)

    [process] stands for the call
    [process_one_batch(params, batch_cuts=batch_cuts, ...)]. *)

Definition main_step (process : list MonoCut → M unit) (batch_size : Z)
    (batch_cuts : list MonoCut) (ic : nat * MonoCut) : M (list MonoCut) :=
  let '(i, cut) := ic in
  if bool_decide (Z.of_nat (length batch_cuts) < batch_size) then
    mret (batch_cuts ++ [cut])
  else
    process batch_cuts;;
    log INFO ("Number of cuts have been loaded is " +:+ pretty i);;
    mret [].

Definition main_loop (process : list MonoCut → M unit) (batch_size : Z)
    (raw_cuts : list MonoCut) : M unit :=
  log INFO "Start processing...";;
  batch_cuts ← foldM (main_step process batch_size) [] (enumerate raw_cuts);
  if bool_decide (length batch_cuts ≠ 0%nat) then process batch_cuts
  else mret ().

Definition main (params : Params) (raw_cuts : list MonoCut) : M unit :=
  main_loop (process_one_batch params) (batch_size params) raw_cuts.

(** *** What a batch holds, stated without the loops

    These are the notions the properties below are phrased in; each is
    related to the code by a lemma. *)

(** The query document of one enumerated supervision of cut [i], tagged
    with its (cut index, supervision index); none for an empty alignment. *)
Definition sup_query (params : Params) (i : nat)
    (js : nat * SupervisionSegment) : option ((nat * nat) * Transcript) :=
  if bool_decide (sup_alignment js.2 = []) then None
  else Some ((i, js.1),
             Transcript_from_dict (sup_id js.2)
               (ali_symbol <$> sup_alignment js.2)
               (ali_start <$> sup_alignment js.2)
               (use_utf8 params) (is_bpe params)).

(** The query documents of the cut at position [i]. *)
Definition cut_queries (params : Params) (i : nat) (cut : MonoCut) :
    list ((nat * nat) * Transcript) :=
  if isfile fs (cut_text_path cut) then
    omap (sup_query params i) (enumerate (cut_supervisions cut))
  else [].

Definition batch_queries_from (params : Params) (n : nat)
    (batch_cuts : list MonoCut) : list ((nat * nat) * Transcript) :=
  mjoin ((λ ic : nat * MonoCut, cut_queries params ic.1 ic.2) <$>
         enumerate_from n batch_cuts).

Definition batch_queries (params : Params) (batch_cuts : list MonoCut) :
    list ((nat * nat) * Transcript) :=
  batch_queries_from params 0 batch_cuts.

(** [sum(len(query_document) for query_document in queries)] *)
Definition total_tokens (queries : list Transcript) : Z :=
  foldr (λ q acc, Z.of_nat (length (binary_text q)) + acc) 0 queries.

(** The paths that the cuts with a reference file on disk cite. *)
Definition cited_paths (batch_cuts : list MonoCut) : gset string :=
  list_to_set
    (cut_text_path <$> filter (λ cut, isfile fs (cut_text_path cut)) batch_cuts).

(** The reference document of a path. *)
Definition book_of (params : Params) (path : string) : TextSource :=
  TextSource_from_str path (default "" (fs !! path))
    (use_utf8 params) (has_punctuation params).

Definition batch_books (params : Params) (batch_cuts : list MonoCut) :
    list TextSource :=
  book_of params <$> set_iter (cited_paths batch_cuts).

(** The sourced text of the batch: queries first, then the books. *)
Definition batch_sourced_text (params : Params) (batch_cuts : list MonoCut) :
    SourcedText :=
  build_sourced_text params (batch_queries params batch_cuts).*2
    (batch_books params batch_cuts).

(** The warning for a cut without reference file. *)
Definition skip_warning (worker_index : Z) (cut : MonoCut) : event :=
  Log WARNING ("Worker[" +:+ pretty worker_index +:+ "] Skipping " +:+
               cut_id cut +:+ " due to missing of reference book").

Definition skip_warnings (worker_index : Z) (batch_cuts : list MonoCut) :
    list event :=
  omap (λ cut, if isfile fs (cut_text_path cut) then None
               else Some (skip_warning worker_index cut)) batch_cuts.

(** The events of [load_data] up to the end of its two loops. *)
Definition loading_trace (params : Params) (worker_index : Z)
    (batch_cuts : list MonoCut) : list event :=
  Log DEBUG ("Worker[" +:+ pretty worker_index +:+
             "] loading cuts and books") ::
  skip_warnings worker_index batch_cuts ++
  (OpenRead <$> set_iter (cited_paths batch_cuts)).

(** The loop state after more query documents and book paths are added. *)
Definition extend (st : LoadState) (qs : list ((nat * nat) * Transcript))
    (paths : gset string) : LoadState :=
  {| transcripts := transcripts st ++ qs.*2;
     transcripts_cut_index := transcripts_cut_index st ++ qs.*1;
     book_paths := book_paths st ∪ paths;
     num_query_tokens := num_query_tokens st + total_tokens qs.*2 |}.


(** Replace the cut index of a tagged query document. *)
Definition retag (f : nat → nat) (q : (nat * nat) * Transcript) :
    (nat * nat) * Transcript :=
  ((f q.1.1, q.1.2), q.2).

(** Removing the cut at position [k] moves the later cuts down by one: the
    index [i] of the shorter batch is the index [bump k i] of the longer. *)
Definition bump (k : nat) (ij : nat * nat) : nat * nat :=
  (if bool_decide (k ≤ ij.1)%nat then S ij.1 else ij.1, ij.2).

Definition bump_raw (k : nat) (raw : RawData) : RawData :=
  {| raw_num_query_tokens := raw_num_query_tokens raw;
     raw_cut_indexes := bump k <$> raw_cut_indexes raw;
     raw_sourced_text := raw_sourced_text raw |}.

Definition bump_outcome (k : nat) (r : result (option RawData)) :
    result (option RawData) :=
  match r with
  | Return (Some raw) => Return (Some (bump_raw k raw))
  | Return None => Return None
  | Raise e => Raise e
  end.

End pipeline.

(** ** Reading a trace *)


(** The records a trace hands to the manifest writer, in order. *)
Definition written_cuts (t : list event) : list MonoCut :=
  omap (λ e, match e with WriterWrite cut _ => Some cut | _ => None end) t.

(** Events of loading only: log records and files opened. *)
Definition is_load_event (e : event) : Prop :=
  match e with
  | Log _ _ | OpenRead _ => True
  | AlignQueries | SplitAlignedQueries | WriterWrite _ _ => False
  end.

(** How often [x] occurs in [l]. *)
Definition occurrences (x : string) (l : list string) : nat :=
  length (filter (λ y, y = x) l).

(** ** What [write] produces, stated without the loops *)

(** The (original cut, supervision index, segment) triples in the order
    [write] visits them. *)
Definition produced (batch_cuts : list MonoCut)
    (results : list ((nat * nat) * list Segment)) :
    list (MonoCut * nat * Segment) :=
  mjoin ((λ item : (nat * nat) * list Segment,
            match batch_cuts !! item.1.1 with
            | Some current_cut => (λ seg, (current_cut, item.1.2, seg)) <$> item.2
            | None => []
            end) <$> results).

(** The identifier [{original_id}_{n}], where [n] counts the records made
    earlier from a cut with the same id. *)
Definition numbered_ids (origins : list string) : list string :=
  imap (λ k o, o +:+ "_" +:+ pretty (occurrences o (take k origins))) origins.

(** The ids of the original cuts of the produced triples. *)
Definition origins (ps : list (MonoCut * nat * Segment)) : list string :=
  (λ p, cut_id p.1.1) <$> ps.

(** What a record made from the triple [p] looks like: one supervision,
    which carries the id of the record, starts at 0 and lasts as long as
    the record; the record has the duration and the start time of the
    segment and the recording and channel of the original cut. *)
Definition record_for (p : MonoCut * nat * Segment) (c : MonoCut) : Prop :=
  ∃ supervision,
    cut_supervisions c = [supervision] ∧
    sup_id supervision = cut_id c ∧
    sup_start supervision = 0%Q ∧
    sup_duration supervision = cut_duration c ∧
    cut_duration c = seg_duration p.2 ∧
    cut_start c = seg_start_time p.2 ∧
    cut_recording c = cut_recording p.1.1 ∧
    cut_channel c = cut_channel p.1.1.

(** The state of [write] after the triples [ps]: the counters count the
    triples of each cut id, the records are numbered and shaped after
    them. *)
Definition write_inv (ps : list (MonoCut * nat * Segment))
    (st : WriteState) : Prop :=
  (∀ o, default 0%nat (cut_segment_index st !! o) =
        occurrences o (origins ps)) ∧
  cut_id <$> cut_list st = numbered_ids (origins ps) ∧
  Forall2 record_for ps (cut_list st).

(** ** A small model of the [textsearch] interface

    Modelled from the spec: the [textsearch] package, whose code is not in
    [examples/libriheavy/matching.py]. A document is the list of its token
    codes; a sourced text is the list of its documents, [doc_splits] its
    cumulative boundary table; filtering keeps the tokens that satisfy the
    predicate. The theorems below are proved for every implementation of
    the interface; this one serves to run them on concrete batches. *)

Definition code_points (s : string) : list Z :=
  (λ a, Z.of_N (Ascii.N_of_ascii a)) <$> String.list_ascii_of_string s.

Definition upper (c : Z) : Z :=
  if bool_decide (97 ≤ c ≤ 122) then c - 32 else c.

Fixpoint boundaries (acc : Z) (docs : list (list Z)) : list Z :=
  match docs with
  | [] => [acc]
  | d :: docs => acc :: boundaries (acc + Z.of_nat (length d)) docs
  end.

Definition list_text_search_with (splits : list (list Z) → list Z) :
    TextSearch := {|
  Transcript := list Z;
  TextSource := list Z;
  SourcedText := list (list Z);
  Alignment := nat;
  Transcript_from_dict _ text _ _ _ := mjoin (code_points <$> text);
  binary_text t := t;
  TextSource_from_str _ s _ _ := code_points s;
  texts_to_sourced_texts sources uppercase :=
    (λ src : list Z + list Z,
       let tokens := match src with inl t => t | inr t => t end in
       [if uppercase then upper <$> tokens else tokens]) <$> sources;
  append_texts := mjoin;
  filter_texts t fn := (λ d, filter (λ c, fn c = true) d) <$> t;
  is_punctuation c := bool_decide (c ∈ [33; 34; 39; 44; 46; 58; 59; 63]);
  doc_splits := splits;
  align_queries _ _ _ _ _ _ := [];
  split_aligned_queries _ _ _ _ _ _ _ _ _ _ := [];
|}.

Definition list_text_search : TextSearch :=
  list_text_search_with (boundaries 0).

(** The same model with a boundary table that forgets every document: a
    construction fault of the kind the assertion of [load_data] guards
    against. *)
Definition faulty_text_search : TextSearch :=
  list_text_search_with (λ _, [0; 0; 0]).

(** Iteration in the order of [elements]. *)
Definition elements_order : SetOrder := {|
  set_iter := elements;
  set_iter_perm X := reflexivity (elements X);
|}.

(** ** A sample batch *)

Definition sample_supervision (id : string) (symbols : list string) :
    SupervisionSegment := {|
  sup_id := id; sup_recording_id := "rec"; sup_start := 0; sup_duration := 10;
  sup_channel := 0; sup_language := Some "English"; sup_speaker := None;
  sup_alignment := (λ s, {| ali_symbol := s; ali_start := 0 |}) <$> symbols;
  sup_custom := None;
|}.

Definition sample_cut (id path : string)
    (supervisions : list SupervisionSegment) : MonoCut := {|
  cut_id := id; cut_start := 0; cut_duration := 10; cut_channel := 0;
  cut_supervisions := supervisions;
  cut_recording := {| rec_id := "rec" |};
  cut_text_path := path;
|}.

Definition sample_fs : gmap string string :=
  {[ "book1.txt" := "Hello, world."; "book2.txt" := "Good bye!" ]}.

Definition cut_a : MonoCut :=
  sample_cut "a" "book1.txt" [sample_supervision "a-0" ["hel"; "lo,"]].
Definition cut_b : MonoCut :=
  sample_cut "b" "book1.txt"
    [sample_supervision "b-0" []; sample_supervision "b-1" ["world"]].
Definition cut_c : MonoCut :=
  sample_cut "c" "missing.txt" [sample_supervision "c-0" ["lost"]].
Definition cut_d : MonoCut :=
  sample_cut "d" "book2.txt" [sample_supervision "d-0" []].

Definition sample_segment (ref hyp : string) : Segment := {|
  seg_begin_byte := 0; seg_end_byte := 5;
  seg_start_time := 3 # 2; seg_duration := 5 # 2;
  seg_hyp := hyp; seg_ref := ref;
  seg_pre_ref := "pre ref"; seg_pre_hyp := "pre hyp";
  seg_post_ref := "post ref"; seg_post_hyp := "post hyp";
|}.

(** ** Notions for the properties of [main], [write] and
    [process_one_batch] *)

(** One call [process_one_batch(batch)] of [main], followed by the progress
    log "Number of cuts have been loaded is i" when the call is made inside
    the loop. *)
Definition run_call (process : list MonoCut → M unit) (_ : unit)
    (call : list MonoCut * option nat) : M unit :=
  process call.1;;
  match call.2 with
  | Some i => log INFO ("Number of cuts have been loaded is " +:+ pretty i)
  | None => mret ()
  end.

Definition run_calls (process : list MonoCut → M unit)
    (calls : list (list MonoCut * option nat)) : M unit :=
  foldM (run_call process) () calls.

(** The cuts of the stream at the positions [i] with
    [i mod (n + 1) ≠ n], in stream order. *)
Definition kept_cuts (n : nat) (raw_cuts : list MonoCut) : list MonoCut :=
  (filter (λ ic : nat * MonoCut, (ic.1 mod S n ≠ n)%nat)
     (enumerate raw_cuts)).*2.

(** An item of [results] that [write] can serve: its cut index is in the
    batch and, when it has a segment, its supervision index is in the
    cut. *)
Definition valid_item (batch_cuts : list MonoCut)
    (item : (nat * nat) * list Segment) : Prop :=
  ∃ current_cut,
    batch_cuts !! item.1.1 = Some current_cut ∧
    (item.2 = [] ∨ is_Some (cut_supervisions current_cut !! item.1.2)).

(** The [flush] arguments of the writer calls of a trace, in order. *)
Definition flush_flags (t : list event) : list bool :=
  omap (λ e, match e with WriterWrite _ flush => Some flush | _ => None end) t.

(** The calls of the alignment driver, of the segmentation driver and of
    the writer in a trace. *)
Definition is_driver_event (e : event) : bool :=
  match e with
  | AlignQueries | SplitAlignedQueries | WriterWrite _ _ => true
  | Log _ _ | OpenRead _ => false
  end.

Definition driver_events (t : list event) : list event :=
  filter (λ e, is_driver_event e) t.

(** The record [c] is the one [write] makes for the triple [p]: the cut of
    lines 361-385 for the original cut, its supervision at the given index
    and the segment, under some identifier. *)
Definition made_from (p : MonoCut * nat * Segment) (c : MonoCut) : Prop :=
  ∃ sup id,
    cut_supervisions p.1.1 !! p.1.2 = Some sup ∧
    c = segment_cut id p.1.1 sup p.2.

Section drivers.
Context {TS : TextSearch}.

(** What [align] gets from [align_queries] for the raw data of a batch, and
    what [split] gets from [split_aligned_queries] for it. *)
Definition batch_alignments (params : Params) (raw : RawData) :
    list Alignment :=
  align_queries (raw_sourced_text raw) (raw_num_query_tokens raw)
    (num_close_matches params) (segment_length params)
    (reference_length_difference params) (min_matched_query_ratio params).

Definition batch_segments (params : Params) (raw : RawData) :
    list ((nat * nat) * list Segment) :=
  split_aligned_queries (raw_sourced_text raw) (batch_alignments params raw)
    (raw_cut_indexes raw)
    (preceding_context_length params) (timestamp_position params)
    (silence_length_to_break params) (min_duration params)
    (max_duration params) (expected_duration params) (max_error_rate params).

(** The events of [align] and of [split], with worker index 0. *)
Definition align_trace : list event :=
  [Log DEBUG "Worker[0] Aligning queries."; AlignQueries;
   Log DEBUG "Worker[0] Aligning queries done."].

Definition split_trace : list event :=
  [Log DEBUG "Worker[0] Splitting aligned query."; SplitAlignedQueries;
   Log DEBUG "Worker[0] Splitting aligned query done."].
End drivers.

(** The list model of the interface with drivers that return one alignment
    and the given segments. *)
Definition driving_text_search
    (segments : list ((nat * nat) * list Segment)) : TextSearch := {|
  Transcript := @Transcript list_text_search;
  TextSource := @TextSource list_text_search;
  SourcedText := @SourcedText list_text_search;
  Alignment := @Alignment list_text_search;
  Transcript_from_dict := @Transcript_from_dict list_text_search;
  binary_text := @binary_text list_text_search;
  TextSource_from_str := @TextSource_from_str list_text_search;
  texts_to_sourced_texts := @texts_to_sourced_texts list_text_search;
  append_texts := @append_texts list_text_search;
  filter_texts := @filter_texts list_text_search;
  is_punctuation := @is_punctuation list_text_search;
  doc_splits := @doc_splits list_text_search;
  align_queries _ _ _ _ _ _ := [0%nat];
  split_aligned_queries _ _ _ _ _ _ _ _ _ _ := segments;
|}.


(** ** A driver that breaks ties by position

    Modelled from the spec: [align_queries] and [split_aligned_queries] of
    the [textsearch] package, whose code is not in
    [examples/libriheavy/matching.py]. The documents are those of
    [list_text_search]. A query is searched in all the reference documents
    of the sourced text, whichever cut it comes from, and is aligned with
    the first reference document, in the order of the sourced text, that
    starts with the tokens of the query: when two books match, the one that
    comes first wins. The segment of an aligned query reports the query as
    its matched text and what the matched book holds next as its succeeding
    reference context. This is one behaviour that the interface allows, not
    the package's algorithm; only the concrete runs of claim C8 use it. *)









(** A stand-in for [process_one_batch] that fails on the batches starting
    with the cut of the given id. *)
Definition failing_on (id : string) (batch_cuts : list MonoCut) : M unit :=
  match batch_cuts with
  | cut :: _ => if bool_decide (cut_id cut = id) then raise IndexError
                else mret ()
  | [] => mret ()
  end.

(** ** Monad laws used below *)

Lemma M_bind_ret_l {A B} (a : A) (f : A → M B) : (mret a ≫= f) = f a.
Proof. unfold mbind, M_bind, mret, M_ret. simpl. by destruct (f a). Qed.

Lemma M_bind_ret_r {A} (m : M A) : (m ≫= mret) = m.
Proof.
  destruct m as [t [a|e]]; unfold mbind, M_bind, mret, M_ret; simpl;
    by rewrite ?app_nil_r.
Qed.

Lemma M_bind_assoc {A B C} (m : M A) (f : A → M B) (g : B → M C) :
  ((m ≫= f) ≫= g) = (m ≫= λ a, f a ≫= g).
Proof.
  destruct m as [t [a|e]]; unfold mbind, M_bind; simpl; [|done].
  destruct (f a) as [t' [b|e]]; simpl; [|done].
  by rewrite app_assoc.
Qed.

Lemma M_bind_emit {B} (ev : event) (f : unit → M B) :
  (emit ev ≫= f) = (ev :: (f ()).1, (f ()).2).
Proof. done. Qed.

(** ** Claim C1: the batching loop *)

(** C1 (the code departs from the claim). With [batch_size = 2] and a stream
    of three cuts, [main] hands exactly one batch to [process_one_batch],
    namely the first two cuts; the third cut, the one that finds the batch
    full, is put into no batch at all: the [else] branch processes and
    resets the batch without appending the cut in hand. *)
Theorem main_loop_drops_cut_on_full_batch (process : list MonoCut → M unit)
    (c1 c2 c3 : MonoCut) :
  main_loop process 2 [c1; c2; c3] =
    (log INFO "Start processing...";;
     process [c1; c2];;
     log INFO "Number of cuts have been loaded is 2").
Proof.
  unfold main_loop, enumerate, mbind, M_bind. simpl.
  destruct (process [c1; c2]) as [t [[]|e]]; simpl; [|done].
  by rewrite !app_nil_r.
Qed.

(** ** The loops of [load_data] *)

Lemma M_bind_return {A B} (t : list event) (a : A) (f : A → M B) :
  ((t, Return a) ≫= f) = (t ++ (f a).1, (f a).2).
Proof. done. Qed.

Lemma enumerate_from_app {A} (n : nat) (l1 l2 : list A) :
  enumerate_from n (l1 ++ l2) =
    enumerate_from n l1 ++ enumerate_from (n + length l1) l2.
Proof.
  revert n. induction l1 as [|x l1 IH]; intros n; simpl.
  - by rewrite Nat.add_0_r.
  - by rewrite IH, Nat.add_succ_r.
Qed.

Section load.
Context {TS : TextSearch} {SO : SetOrder}.
Context (fs : gmap string string).

Lemma total_tokens_app (qs1 qs2 : list Transcript) :
  total_tokens (qs1 ++ qs2) = (total_tokens qs1 + total_tokens qs2)%Z.
Proof.
  unfold total_tokens. induction qs1 as [|q qs1 IH]; simpl; [done|].
  rewrite IH. lia.
Qed.

Lemma extend_nil (st : LoadState) : extend st [] ∅ = st.
Proof.
  destruct st as [ts ix bp n]. unfold extend; simpl.
  by rewrite !app_nil_r, Z.add_0_r, union_empty_r_L.
Qed.

Lemma extend_extend (st : LoadState) qs1 qs2 (P1 P2 : gset string) :
  extend (extend st qs1 P1) qs2 P2 = extend st (qs1 ++ qs2) (P1 ∪ P2).
Proof.
  unfold extend; simpl.
  rewrite !fmap_app, !app_assoc, total_tokens_app, (assoc_L (∪)).
  f_equal. lia.
Qed.

Lemma extend_cons (st : LoadState) q qs :
  extend st (q :: qs) ∅ = extend (extend st [q] ∅) qs ∅.
Proof. by rewrite extend_extend, union_empty_r_L. Qed.

Lemma load_supervisions_spec params i (st : LoadState)
    (l : list (nat * SupervisionSegment)) :
  foldl (load_supervision params i) st l =
    extend st (omap (sup_query params i) l) ∅.
Proof.
  revert st. induction l as [|[j sup] l IH]; intros st; simpl.
  - by rewrite extend_nil.
  - rewrite IH. unfold sup_query at 2; simpl.
    destruct (sup_alignment sup) as [|a al] eqn:Hal; simpl.
    + done.
    + rewrite extend_cons. f_equal. unfold extend; simpl.
      rewrite union_empty_r_L. f_equal. unfold total_tokens; simpl. lia.
Qed.

Lemma load_cut_spec params w (st : LoadState) i cut :
  load_cut fs params w st (i, cut) =
    (skip_warnings fs w [cut],
     Return (extend st (cut_queries fs params i cut) (cited_paths fs [cut]))).
Proof.
  unfold load_cut, skip_warnings, cut_queries, cited_paths, skip_warning.
  simpl. rewrite filter_cons, filter_nil.
  destruct (isfile fs (cut_text_path cut)) eqn:Hf; simpl.
  - rewrite load_supervisions_spec.
    unfold mret, M_ret. do 2 f_equal. unfold extend; simpl.
    by rewrite !union_empty_r_L.
  - by rewrite extend_nil.
Qed.

Lemma cited_paths_cons cut batch :
  cited_paths fs (cut :: batch) = cited_paths fs [cut] ∪ cited_paths fs batch.
Proof.
  unfold cited_paths. rewrite !filter_cons, filter_nil.
  case_decide; simpl; set_solver.
Qed.

Lemma load_cuts_spec params w (st : LoadState) n batch :
  foldM (load_cut fs params w) st (enumerate_from n batch) =
    (skip_warnings fs w batch,
     Return (extend st (batch_queries_from fs params n batch)
               (cited_paths fs batch))).
Proof.
  revert st n. induction batch as [|cut batch IH]; intros st n.
  - simpl. by rewrite extend_nil.
  - cbn [enumerate_from foldM]. rewrite load_cut_spec, M_bind_return, IH.
    simpl. rewrite extend_extend, <- cited_paths_cons.
    unfold skip_warnings, batch_queries_from. simpl.
    f_equal. by destruct (isfile fs (cut_text_path cut)).
Qed.
Lemma elem_of_cited_paths path batch :
  path ∈ cited_paths fs batch ↔
  ∃ cut, cut ∈ batch ∧ cut_text_path cut = path ∧ isfile fs path = true.
Proof.
  unfold cited_paths. rewrite elem_of_list_to_set, list_elem_of_fmap.
  split.
  - intros (cut & -> & Hcut). apply list_elem_of_filter in Hcut as [Hf Hin].
    exists cut. split_and!; [done..|]. by apply Is_true_eq_true.
  - intros (cut & Hin & <- & Hf). exists cut. split; [done|].
    apply list_elem_of_filter. split; [|done]. by apply Is_true_eq_left.
Qed.

Lemma cited_paths_on_disk path batch :
  path ∈ set_iter (cited_paths fs batch) → is_Some (fs !! path).
Proof.
  rewrite set_iter_perm, elem_of_elements, elem_of_cited_paths.
  intros (_ & _ & _ & Hf). unfold isfile in Hf.
  by apply bool_decide_eq_true in Hf.
Qed.

Lemma load_book_spec params (books : list TextSource) (path : string) :
  is_Some (fs !! path) →
  load_book fs params books path =
    ([OpenRead path], Return (books ++ [book_of fs params path])).
Proof.
  intros [text Htext]. unfold load_book, read_text, book_of.
  rewrite Htext. by rewrite M_bind_assoc, M_bind_emit, !M_bind_ret_l.
Qed.

Lemma load_books_spec params (books : list TextSource) (paths : list string) :
  (∀ path, path ∈ paths → is_Some (fs !! path)) →
  foldM (load_book fs params) books paths =
    (OpenRead <$> paths, Return (books ++ (book_of fs params <$> paths))).
Proof.
  revert books. induction paths as [|path paths IH]; intros books Hdisk.
  - simpl. by rewrite app_nil_r.
  - cbn [foldM]. rewrite load_book_spec by (apply Hdisk; left).
    rewrite M_bind_return, IH by (intros; apply Hdisk; by right).
    simpl. by rewrite <- app_assoc.
Qed.

Lemma load_cuts_and_books_spec params w batch :
  load_cuts_and_books fs params batch w =
    (loading_trace fs params w batch,
     Return (extend load_init (batch_queries fs params batch)
               (cited_paths fs batch),
             batch_books fs params batch)).
Proof.
  unfold load_cuts_and_books, enumerate, log.
  rewrite M_bind_emit, load_cuts_spec, M_bind_return.
  cbn [book_paths extend load_init]. rewrite union_empty_l_L.
  rewrite load_books_spec by (intros; by eapply cited_paths_on_disk).
  rewrite M_bind_return. simpl. by rewrite app_nil_r.
Qed.

(** [load_data] in closed form: its trace and its outcome. *)
Lemma load_data_spec params w batch :
  load_data fs params batch w =
    (loading_trace fs params w batch ++
     (if bool_decide (batch_queries fs params batch = []) then []
      else [Log DEBUG ("Worker[" +:+ pretty w +:+
                       "] loading cuts and books done.");
            Log DEBUG ("Worker[" +:+ pretty w +:+
                       "] construct sourced_text done.")]),
     if bool_decide (batch_queries fs params batch = []) then Return None
     else
       match doc_splits (batch_sourced_text fs params batch)
               !! length (batch_queries fs params batch) with
       | None => Raise IndexError
       | Some boundary =>
           if bool_decide
                (total_tokens (batch_queries fs params batch).*2 = boundary)
           then
             Return (Some {|
               raw_num_query_tokens :=
                 total_tokens (batch_queries fs params batch).*2;
               raw_cut_indexes := (batch_queries fs params batch).*1;
               raw_sourced_text := batch_sourced_text fs params batch |})
           else
             Raise (AssertionError
                      (total_tokens (batch_queries fs params batch).*2)
                      boundary)
       end).
Proof.
  unfold load_data, batch_sourced_text.
  rewrite load_cuts_and_books_spec, M_bind_return.
  cbn [extend load_init transcripts transcripts_cut_index num_query_tokens
       app].
  rewrite Z.add_0_l.
  generalize (batch_books fs params batch) as books.
  generalize (batch_queries fs params batch) as queries.
  intros queries books.
  destruct queries as [|q queries]; [done|].
  rewrite length_fmap.
  rewrite (bool_decide_eq_false_2 (q :: queries = [])) by done.
  rewrite (bool_decide_eq_false_2 ((q :: queries).*2 = [])) by done.
  unfold check_num_query_tokens, log.
  rewrite !M_bind_emit.
  destruct (doc_splits _ !! _) as [boundary|]; [|done].
  case_bool_decide; done.
Qed.
End load.

(** ** Claim C3: the token-count assertion *)

Section token_count.
Context {TS : TextSearch} {SO : SetOrder}.
Context (fs : gmap string string).

(** C3. When [load_data] returns a non-empty result, the token count it
    reports is the sum of the sizes of the query documents, and it equals
    the entry of the boundary table of the returned sourced text at the
    number of query documents. When the batch has a query document and the
    two numbers differ (or the table has no such entry), [load_data] raises
    instead of returning. *)
Theorem load_data_token_count_invariant params w batch :
  (∀ raw, outcome (load_data fs params batch w) = Return (Some raw) →
     raw_num_query_tokens raw =
       total_tokens (batch_queries fs params batch).*2 ∧
     raw_sourced_text raw = batch_sourced_text fs params batch ∧
     doc_splits (raw_sourced_text raw)
       !! length (batch_queries fs params batch) =
       Some (raw_num_query_tokens raw)) ∧
  (batch_queries fs params batch ≠ [] →
   doc_splits (batch_sourced_text fs params batch)
     !! length (batch_queries fs params batch) ≠
     Some (total_tokens (batch_queries fs params batch).*2) →
   ∃ e, outcome (load_data fs params batch w) = Raise e).
Proof.
  rewrite load_data_spec. unfold outcome. cbn [snd].
  split.
  - intros raw. case_bool_decide as Hq; [done|].
    destruct (doc_splits _ !! _) as [boundary|] eqn:Hb; [|done].
    case_bool_decide as Heq; [|done].
    intros [= <-]. cbn. by rewrite Hb, Heq.
  - intros Hq Hne. rewrite bool_decide_eq_false_2 by done.
    destruct (doc_splits _ !! _) as [boundary|] eqn:Hb; [|by eexists].
    rewrite bool_decide_eq_false_2 by congruence. by eexists.
Qed.
End token_count.

Lemma load_data_token_count_invariant_witness :
  (∃ raw,
     outcome (load_data (TS:=list_text_search) (SO:=elements_order)
                sample_fs (get_params 50) [cut_a; cut_b; cut_c; cut_d] 0) =
       Return (Some raw) ∧
     raw_num_query_tokens raw = 11 ∧
     doc_splits (raw_sourced_text raw) !! 2%nat = Some 11) ∧
  (∃ e,
     outcome (load_data (TS:=faulty_text_search) (SO:=elements_order)
                sample_fs (get_params 50) [cut_a; cut_b; cut_c; cut_d] 0) =
       Raise e).
Proof.
  split.
  - eexists. split; [vm_compute; reflexivity|].
    pose proof (proj1 (load_data_token_count_invariant
      (TS:=list_text_search) (SO:=elements_order)
      sample_fs (get_params 50) 0 [cut_a; cut_b; cut_c; cut_d]) _
      ltac:(vm_compute; reflexivity)) as (H1 & _ & H3).
    split; [exact H1|exact H3].
  - apply (proj2 (load_data_token_count_invariant
      (TS:=faulty_text_search) (SO:=elements_order)
      sample_fs (get_params 50) 0 [cut_a; cut_b; cut_c; cut_d])).
    + vm_compute. discriminate.
    + vm_compute. discriminate.
Defined.

(** ** Claim C4: the empty result and the short circuit *)


Section empty_result.
Context {TS : TextSearch} {SO : SetOrder}.
Context (fs : gmap string string).




Lemma loading_trace_load_events params w batch :
  Forall is_load_event (loading_trace fs params w batch).
Proof.
  unfold loading_trace. constructor; [done|]. apply Forall_app. split.
  - induction batch as [|cut batch IH]; simpl; [constructor|].
    destruct (isfile fs (cut_text_path cut)); [done|by constructor].
  - by apply Forall_fmap, Forall_true.
Qed.

End empty_result.


(** ** Claim C5: a cut without reference file is skipped *)

Section missing_book.
Context {TS : TextSearch} {SO : SetOrder}.
Context (fs : gmap string string).

Lemma sup_query_retag params i i' (js : nat * SupervisionSegment) :
  sup_query params i' js = retag (λ _, i') <$> sup_query params i js.
Proof. unfold sup_query. by case_bool_decide. Qed.

Lemma cut_queries_retag params i i' cut :
  cut_queries fs params i' cut = retag (λ _, i') <$> cut_queries fs params i cut.
Proof.
  unfold cut_queries. destruct (isfile fs (cut_text_path cut)); [|done].
  induction (enumerate (cut_supervisions cut)) as [|js l IH]; [done|].
  cbn [omap list_omap]. rewrite (sup_query_retag params i i').
  destruct (sup_query params i js); simpl; by rewrite IH.
Qed.

Lemma cut_queries_index params i cut q :
  q ∈ cut_queries fs params i cut → q.1.1 = i.
Proof.
  unfold cut_queries. destruct (isfile fs (cut_text_path cut)).
  - rewrite list_elem_of_omap. intros ([j sup] & _ & Hq).
    unfold sup_query in Hq. case_bool_decide; by simplify_eq.
  - by intros ?%elem_of_nil.
Qed.

Lemma batch_queries_from_app params n l1 l2 :
  batch_queries_from fs params n (l1 ++ l2) =
    batch_queries_from fs params n l1 ++
    batch_queries_from fs params (n + length l1) l2.
Proof.
  unfold batch_queries_from.
  by rewrite enumerate_from_app, fmap_app, join_app.
Qed.

Lemma batch_queries_from_succ params n l :
  batch_queries_from fs params (S n) l =
    retag S <$> batch_queries_from fs params n l.
Proof.
  unfold batch_queries_from. revert n.
  induction l as [|cut l IH]; intros n; [done|].
  cbn [enumerate_from fmap list_fmap mjoin list_join fst snd].
  rewrite fmap_app. f_equal; [|apply IH].
  rewrite (cut_queries_retag params n (S n)).
  apply Forall_fmap_ext_1, Forall_forall. intros q Hq.
  apply cut_queries_index in Hq. unfold retag. by rewrite Hq.
Qed.

Lemma batch_queries_from_index params n l q :
  q ∈ batch_queries_from fs params n l → (n ≤ q.1.1 < n + length l)%nat.
Proof.
  unfold batch_queries_from. revert n.
  induction l as [|cut l IH]; intros n; [by intros ?%elem_of_nil|].
  cbn [enumerate_from fmap list_fmap mjoin list_join fst snd length].
  rewrite elem_of_app. intros [Hq|Hq].
  - apply cut_queries_index in Hq. lia.
  - apply IH in Hq. lia.
Qed.

Lemma batch_queries_skip params pre cut post :
  isfile fs (cut_text_path cut) = false →
  batch_queries fs params (pre ++ cut :: post) =
    (λ q, (bump (length pre) q.1, q.2)) <$>
      batch_queries fs params (pre ++ post).
Proof.
  intros Hf. unfold batch_queries.
  rewrite !batch_queries_from_app, fmap_app. cbn [Nat.add].
  f_equal.
  - rewrite <- (list_fmap_id (batch_queries_from fs params 0 pre)) at 1.
    apply Forall_fmap_ext_1, Forall_forall. intros [[i j] t] Hq.
    apply batch_queries_from_index in Hq. simpl in *.
    unfold bump. simpl. rewrite bool_decide_eq_false_2 by lia. done.
  - change (cut :: post) with ([cut] ++ post).
    rewrite batch_queries_from_app. cbn [length Nat.add].
    unfold batch_queries_from at 1. cbn. unfold cut_queries at 1.
    rewrite Hf. cbn [app]. rewrite Nat.add_1_r, batch_queries_from_succ.
    apply Forall_fmap_ext_1, Forall_forall. intros [[i j] t] Hq.
    apply batch_queries_from_index in Hq. simpl in *.
    unfold bump, retag. simpl. rewrite bool_decide_eq_true_2 by lia. done.
Qed.

Lemma cited_paths_skip pre cut post :
  isfile fs (cut_text_path cut) = false →
  cited_paths fs (pre ++ cut :: post) = cited_paths fs (pre ++ post).
Proof.
  intros Hf. unfold cited_paths.
  rewrite !filter_app, filter_cons, Hf. done.
Qed.

(** C5. A cut whose reference file is not on disk leaves the loop state of
    [load_data] as it was and only logs a warning. For the whole batch:
    [load_data] ends as it does on the batch without that cut (the same
    exception, the same empty dict, or the same token count and sourced
    text), the cut indexes of the later cuts being one higher; and the
    warning for the cut is in the trace. *)
Theorem load_data_skips_missing_book params w pre cut post :
  isfile fs (cut_text_path cut) = false →
  (∀ st i, load_cut fs params w st (i, cut) =
           ([skip_warning w cut], Return st)) ∧
  outcome (load_data fs params (pre ++ cut :: post) w) =
    bump_outcome (length pre)
      (outcome (load_data fs params (pre ++ post) w)) ∧
  skip_warning w cut ∈ trace (load_data fs params (pre ++ cut :: post) w).
Proof.
  intros Hf. split_and!.
  - intros st i. unfold load_cut. by rewrite Hf.
  - rewrite !load_data_spec. unfold outcome. cbn [snd].
    unfold batch_sourced_text, batch_books.
    rewrite cited_paths_skip, batch_queries_skip by done.
    generalize (batch_queries fs params (pre ++ post)) as qs. intros qs.
    rewrite length_fmap, <- !list_fmap_compose.
    destruct qs as [|q qs]; [done|].
    rewrite !(bool_decide_eq_false_2 (_ = [])) by done.
    replace (snd ∘ (λ q0 : nat * nat * Transcript,
                      (bump (length pre) q0.1, q0.2))) with
      (snd : nat * nat * Transcript → Transcript) by done.
    destruct (doc_splits _ !! _) as [boundary|]; [|done].
    case_bool_decide; [|done]. cbn. unfold bump_raw. cbn.
    by rewrite <- list_fmap_compose.
  - rewrite load_data_spec. unfold trace. cbn [fst].
    apply elem_of_app. left. unfold loading_trace.
    right. apply elem_of_app. left.
    apply list_elem_of_omap. exists cut. split.
    + apply elem_of_app. right. left.
    + by rewrite Hf.
Qed.
End missing_book.

Lemma load_data_skips_missing_book_witness :
  outcome (load_data (TS:=list_text_search) (SO:=elements_order)
             sample_fs (get_params 50) [cut_a; cut_c; cut_b] 0) =
    bump_outcome (TS:=list_text_search) 1
      (outcome (load_data (TS:=list_text_search) (SO:=elements_order)
                  sample_fs (get_params 50) [cut_a; cut_b] 0)) ∧
  Log WARNING "Worker[0] Skipping c due to missing of reference book" ∈
    trace (load_data (TS:=list_text_search) (SO:=elements_order)
             sample_fs (get_params 50) [cut_a; cut_c; cut_b] 0).
Proof.
  pose proof (load_data_skips_missing_book
    (TS:=list_text_search) (SO:=elements_order)
    sample_fs (get_params 50) 0 [cut_a] cut_c [cut_b]
    ltac:(vm_compute; reflexivity)) as (_ & Hout & Hlog).
  split; [exact Hout|exact Hlog].
Defined.

(** ** Claim C6: each cited book is loaded once *)





Section books_once.
Context {TS : TextSearch} {SO : SetOrder}.
Context (fs : gmap string string).



End books_once.


(** ** Claim C7: punctuation is removed from the books only *)

Section punctuation.
Context {TS : TextSearch} {SO : SetOrder}.
Context (fs : gmap string string).

(** C7. The sourced text that [load_data] returns is the concatenation of
    two parts. The first is the concatenation of the sourced texts of the
    query documents as they are: [filter_texts] is not applied to it. The
    second is the concatenation of the sourced texts of the books, passed
    through [filter_texts] with the predicate "is not punctuation". *)
Theorem load_data_filters_books_only params w batch raw :
  outcome (load_data fs params batch w) = Return (Some raw) →
  raw_sourced_text raw =
    append_texts
      [append_texts
         (texts_to_sourced_texts
            (inl <$> (batch_queries fs params batch).*2)
            (use_uppercase params));
       filter_texts
         (append_texts
            (texts_to_sourced_texts
               (inr <$> batch_books fs params batch)
               (use_uppercase params)))
         (λ c, negb (is_punctuation c))].
Proof.
  rewrite load_data_spec. unfold outcome. cbn [snd].
  case_bool_decide; [done|].
  destruct (doc_splits _ !! _); [|done].
  case_bool_decide; [|done]. by intros [= <-].
Qed.
End punctuation.

Lemma load_data_filters_books_only_witness :
  ∃ raw,
    outcome (load_data (TS:=list_text_search) (SO:=elements_order)
               sample_fs (get_params 50) [cut_a; cut_b; cut_c; cut_d] 0) =
      Return (Some raw) ∧
    raw_sourced_text raw =
      [[72; 69; 76; 76; 79; 44]; [87; 79; 82; 76; 68];
       [72; 69; 76; 76; 79; 32; 87; 79; 82; 76; 68];
       [71; 79; 79; 68; 32; 66; 89; 69]].
Proof.
  eexists. split; [vm_compute; reflexivity|].
  etrans.
  - apply (load_data_filters_books_only
      (TS:=list_text_search) (SO:=elements_order)
      sample_fs (get_params 50) 0 [cut_a; cut_b; cut_c; cut_d]).
    vm_compute. reflexivity.
  - vm_compute. reflexivity.
Defined.

(** ** The loops of [write] *)

Lemma bind_Return_inv {A B} (m : M A) (f : A → M B) (b : B) :
  (m ≫= f).2 = Return b → ∃ a, m.2 = Return a ∧ (f a).2 = Return b.
Proof.
  destruct m as [t [a|e]]; unfold mbind, M_bind; simpl; [|done].
  intros Hb. by exists a.
Qed.

Lemma occurrences_app (x : string) (l1 l2 : list string) :
  occurrences x (l1 ++ l2) = (occurrences x l1 + occurrences x l2)%nat.
Proof. unfold occurrences. by rewrite filter_app, length_app. Qed.

Lemma numbered_ids_snoc (os : list string) (o : string) :
  numbered_ids (os ++ [o]) =
    numbered_ids os ++ [o +:+ "_" +:+ pretty (occurrences o os)].
Proof.
  unfold numbered_ids. rewrite imap_app. simpl.
  rewrite Nat.add_0_r, take_app_length. f_equal.
  apply imap_ext. intros i x Hi. apply lookup_lt_Some in Hi.
  by rewrite take_app_le by lia.
Qed.

Lemma write_inv_init : write_inv [] write_init.
Proof. split_and!; [done|done|constructor]. Qed.

Lemma write_segment_inv current_cut cut_indexes st seg st' ps :
  (write_segment current_cut cut_indexes st seg).2 = Return st' →
  write_inv ps st →
  write_inv (ps ++ [(current_cut, cut_indexes.2, seg)]) st' ∧
  is_Some (cut_segment_index st' !! cut_id current_cut).
Proof.
  unfold write_segment. intros Hrun (Hcount & Hids & Hrec).
  destruct (cut_segment_index st !! cut_id current_cut) as [n|] eqn:Hn;
    [|done].
  destruct (cut_supervisions current_cut !! cut_indexes.2) as [sup|];
    [|done].
  injection Hrun as <-. cbn [cut_segment_index cut_list].
  pose proof (Hcount (cut_id current_cut)) as Hn'. rewrite Hn in Hn'.
  simpl in Hn'. split; [|by rewrite lookup_insert_eq].
  unfold write_inv. cbn [cut_segment_index cut_list].
  unfold origins in *. rewrite fmap_app. cbn [fmap list_fmap fst].
  split_and!.
  - intros o. rewrite occurrences_app.
    unfold occurrences at 2. rewrite filter_cons, filter_nil.
    destruct (decide (cut_id current_cut = o)) as [<-|Hne].
    + rewrite lookup_insert_eq. simpl. lia.
    + rewrite lookup_insert_ne by done. rewrite Hcount. simpl. lia.
  - rewrite fmap_app, Hids. simpl. rewrite numbered_ids_snoc.
    by rewrite Hn'.
  - apply Forall2_app; [done|]. constructor; [|constructor].
    by eexists.
Qed.

Lemma write_segments_inv current_cut cut_indexes segments st st' ps :
  (foldM (write_segment current_cut cut_indexes) st segments).2 = Return st' →
  write_inv ps st →
  write_inv
    (ps ++ ((λ seg, (current_cut, cut_indexes.2, seg)) <$> segments)) st'.
Proof.
  revert st ps. induction segments as [|seg segments IH]; intros st ps.
  - simpl. intros [= <-]. by rewrite app_nil_r.
  - cbn [foldM]. intros (st1 & Hseg & Hrest)%bind_Return_inv Hinv.
    destruct (write_segment_inv _ _ _ _ _ _ Hseg Hinv) as [Hinv1 _].
    specialize (IH _ _ Hrest Hinv1).
    by rewrite <- app_assoc in IH.
Qed.

Lemma write_item_inv batch_cuts item st st' ps :
  (write_item batch_cuts st item).2 = Return st' →
  write_inv ps st →
  write_inv (ps ++ produced batch_cuts [item]) st'.
Proof.
  unfold write_item, produced. simpl. rewrite app_nil_r.
  destruct (batch_cuts !! item.1.1) as [current_cut|]; [|done].
  intros Hrun Hinv. eapply write_segments_inv; [exact Hrun|].
  destruct Hinv as (Hcount & Hids & Hrec).
  case_bool_decide as Hnone; [|done].
  split_and!; [|done..]. intros o. cbn [cut_segment_index].
  destruct (decide (cut_id current_cut = o)) as [<-|Hne].
  - rewrite lookup_insert_eq. rewrite <- Hcount, Hnone. done.
  - rewrite lookup_insert_ne by done. apply Hcount.
Qed.

Lemma produced_cons batch_cuts item results :
  produced batch_cuts (item :: results) =
    produced batch_cuts [item] ++ produced batch_cuts results.
Proof. unfold produced. simpl. by rewrite app_nil_r. Qed.

Lemma write_items_inv batch_cuts results st st' ps :
  (foldM (write_item batch_cuts) st results).2 = Return st' →
  write_inv ps st →
  write_inv (ps ++ produced batch_cuts results) st'.
Proof.
  revert st ps. induction results as [|item results IH]; intros st ps.
  - simpl. intros [= <-]. by rewrite app_nil_r.
  - cbn [foldM]. intros (st1 & Hitem & Hrest)%bind_Return_inv Hinv.
    rewrite produced_cons, app_assoc. eapply IH; [exact Hrest|].
    by eapply write_item_inv.
Qed.

Lemma write_cuts_inv batch_cuts results cuts :
  outcome (write_cuts batch_cuts results) = Return cuts →
  ∃ st, cut_list st = cuts ∧ write_inv (produced batch_cuts results) st.
Proof.
  unfold write_cuts, outcome.
  intros (st & Hrun & [= <-])%bind_Return_inv. exists st. split; [done|].
  by apply (write_items_inv _ _ _ _ [] Hrun), write_inv_init.
Qed.

Lemma foldM_no_events {A B} (f : B → A → M B) (b : B) (l : list A) :
  (∀ b x, (f b x).1 = []) → (foldM f b l).1 = [].
Proof.
  intros Hf. revert b. induction l as [|x l IH]; intros b; [done|].
  cbn [foldM]. unfold mbind, M_bind. specialize (Hf b x).
  destruct (f b x) as [t [b'|e]]; simpl in *; subst t; [|done].
  apply IH.
Qed.

Lemma write_cuts_no_events batch_cuts results :
  trace (write_cuts batch_cuts results) = [].
Proof.
  unfold write_cuts, trace, mbind, M_bind.
  pose proof (foldM_no_events (write_item batch_cuts) write_init results)
    as Hfold.
  destruct (foldM _ _ _) as [t [st|e]]; simpl in *.
  - rewrite Hfold; [done|].
    intros st' item. unfold write_item.
    destruct (batch_cuts !! _); [|done]. apply foldM_no_events.
    intros st'' seg. unfold write_segment.
    destruct (_ !! _); [|done]. by destruct (_ !! _).
  - apply Hfold. intros st' item. unfold write_item.
    destruct (batch_cuts !! _); [|done]. apply foldM_no_events.
    intros st'' seg. unfold write_segment.
    destruct (_ !! _); [|done]. by destruct (_ !! _).
Qed.

Lemma write_loop_written len n (cuts : list MonoCut) :
  ∃ t, foldM (write_one len) () (enumerate_from n cuts) = (t, Return ()) ∧
       written_cuts t = cuts.
Proof.
  revert n. induction cuts as [|c cuts IH]; intros n.
  - by exists [].
  - destruct (IH (S n)) as (t & Hrun & Ht).
    exists (WriterWrite c (bool_decide (Z.of_nat n = Z.of_nat len - 1)) :: t).
    cbn [enumerate_from foldM].
    change (write_one len () (n, c)) with
      (emit (WriterWrite c (bool_decide (Z.of_nat n = Z.of_nat len - 1)))).
    rewrite M_bind_emit, Hrun. simpl. by rewrite Ht.
Qed.

Lemma write_written batch_cuts results :
  written_cuts (trace (write batch_cuts results)) =
    match outcome (write_cuts batch_cuts results) with
    | Return cuts => cuts
    | Raise _ => []
    end.
Proof.
  unfold write, trace, outcome.
  pose proof (write_cuts_no_events batch_cuts results) as Hno.
  unfold trace in Hno.
  destruct (write_cuts batch_cuts results) as [t [cuts|e]];
    simpl in Hno; subst t; [|done].
  rewrite M_bind_return. unfold log. rewrite M_bind_emit.
  destruct (write_loop_written (length cuts) 0 cuts) as (t & Hrun & Ht).
  unfold enumerate. rewrite Hrun, M_bind_return. simpl.
  unfold written_cuts in *. rewrite omap_app, Ht. simpl.
  by rewrite app_nil_r.
Qed.

(** ** Claim C9: record identifiers *)

Lemma occurrences_take_lt (os : list string) (o : string) (j k : nat) :
  (j < k)%nat → os !! j = Some o →
  (occurrences o (take j os) < occurrences o (take k os))%nat.
Proof.
  intros Hjk Hj.
  rewrite <- (take_drop (S j) (take k os)), take_take, Nat.min_l by lia.
  rewrite (take_S_r _ _ _ Hj), !occurrences_app.
  unfold occurrences at 3. rewrite filter_cons, decide_True by done.
  simpl. lia.
Qed.

Lemma write_returns_inv batch_cuts results :
  outcome (write batch_cuts results) = Return () →
  ∃ cuts, outcome (write_cuts batch_cuts results) = Return cuts.
Proof.
  unfold write, outcome.
  destruct (write_cuts batch_cuts results) as [t [cuts|e]]; [by eauto|].
  by unfold mbind, M_bind.
Qed.

(** C9. When [write] returns, the identifiers of the records it has handed
    to the writer are, in order, [{original_id}_{n}] where [n] is the number
    of records made before from a cut with the same id: 0 for the first
    record of an id and one more for each next one, whichever supervision
    the segment comes from. Two written records made from cuts with the same
    id have different identifiers. *)
Theorem write_numbers_records_per_cut_id batch_cuts results :
  outcome (write batch_cuts results) = Return () →
  cut_id <$> written_cuts (trace (write batch_cuts results)) =
    numbered_ids (origins (produced batch_cuts results)) ∧
  (∀ j k cj ck,
     (j < k)%nat →
     written_cuts (trace (write batch_cuts results)) !! j = Some cj →
     written_cuts (trace (write batch_cuts results)) !! k = Some ck →
     origins (produced batch_cuts results) !! j =
       origins (produced batch_cuts results) !! k →
     cut_id cj ≠ cut_id ck).
Proof.
  intros [cuts Hcuts]%write_returns_inv. rewrite write_written, Hcuts.
  apply write_cuts_inv in Hcuts as (st & <- & _ & Hids & _). split; [done|].
  intros j k cj ck Hjk Hj Hk Hsame Heq.
  assert ((cut_id <$> cut_list st) !! j = Some (cut_id cj)) as Hidj
    by by rewrite list_lookup_fmap, Hj.
  assert ((cut_id <$> cut_list st) !! k = Some (cut_id ck)) as Hidk
    by by rewrite list_lookup_fmap, Hk.
  rewrite Hids in Hidj, Hidk. unfold numbered_ids in Hidj, Hidk.
  rewrite list_lookup_imap in Hidj, Hidk.
  destruct (origins _ !! j) as [oj|] eqn:Hoj; [|done].
  destruct (origins _ !! k) as [ok|] eqn:Hok; [|done].
  injection Hsame as ->. simpl in Hidj, Hidk.
  injection Hidj as Hidj. injection Hidk as Hidk.
  rewrite <- Hidj, <- Hidk in Heq.
  apply String.app_inj, (String.app_inj "_"), (inj pretty) in Heq.
  pose proof (occurrences_take_lt _ _ _ _ Hjk Hoj). lia.
Qed.

Lemma write_numbers_records_per_cut_id_witness :
  cut_id <$> written_cuts (trace (write [cut_a; cut_b]
    [((0, 0)%nat, [sample_segment "r1" "h1"]);
     ((1, 1)%nat, [sample_segment "r2" "h2"]);
     ((0, 0)%nat, [sample_segment "r3" "h3"])])) =
    ["a_0"; "b_0"; "a_1"].
Proof.
  etrans.
  - eapply proj1, (write_numbers_records_per_cut_id [cut_a; cut_b]
      [((0, 0)%nat, [sample_segment "r1" "h1"]);
       ((1, 1)%nat, [sample_segment "r2" "h2"]);
       ((0, 0)%nat, [sample_segment "r3" "h3"])]).
    vm_compute. reflexivity.
  - vm_compute. reflexivity.
Defined.

(** ** Claim C10: the shape of an output record *)

(** C10. Every record that [write] hands to the writer comes from one
    produced segment and has exactly one supervision; the supervision has
    the id of the record, start 0 and the duration of the record, which is
    the duration of the segment; the start of the record is the start time
    of the segment, and its recording and channel are those of the original
    cut. When the first loop of [write] ends normally the written records
    are its records, one for each produced segment, in order. *)
Theorem write_records_shape batch_cuts results :
  (∀ c, c ∈ written_cuts (trace (write batch_cuts results)) →
     ∃ p, p ∈ produced batch_cuts results ∧ record_for p c) ∧
  (∀ cuts, outcome (write_cuts batch_cuts results) = Return cuts →
     written_cuts (trace (write batch_cuts results)) = cuts ∧
     Forall2 record_for (produced batch_cuts results) cuts).
Proof.
  rewrite write_written.
  destruct (outcome (write_cuts batch_cuts results)) as [cuts|e] eqn:Hrun.
  - apply write_cuts_inv in Hrun as (st & <- & _ & _ & Hrec). split.
    + intros c Hc. apply list_elem_of_lookup in Hc as [i Hi].
      destruct (Forall2_lookup_r _ _ _ _ _ Hrec Hi) as (p & Hp & Hpc).
      exists p. split; [|done]. by eapply list_elem_of_lookup_2.
    + by intros ? [= <-].
  - split; [|done]. by intros c ?%elem_of_nil.
Qed.

Lemma write_records_shape_witness :
  ∃ p, p ∈ produced [cut_a; cut_b]
             [((0, 1)%nat, []); ((1, 1)%nat, [sample_segment "r" "h"])] ∧
       record_for p
         (segment_cut "b_0" cut_b (sample_supervision "b-1" ["world"])
            (sample_segment "r" "h")).
Proof.
  apply (proj1 (write_records_shape [cut_a; cut_b]
    [((0, 1)%nat, []); ((1, 1)%nat, [sample_segment "r" "h"])])).
  vm_compute. left.
Defined.

(** ** Claim C2: the texts in the metadata block *)

(** C2 (the code departs from the claim). For a segment whose [post_ref] is
    "post ref" and whose [post_hyp] is "post hyp", the record that [write]
    hands to the writer has the matched pair [ref, hyp] and the preceding
    pair [pre_ref, pre_hyp], but its [post_texts] is
    ["post ref", "post ref"]: the hypothesis side of the succeeding context
    is the reference text again, and [post_hyp] is nowhere in the record. *)
Theorem write_post_texts_repeats_post_ref :
  ∃ c supervision custom,
    written_cuts (trace (write [cut_a] [((0, 0)%nat, [sample_segment "r" "h"])]))
      = [c] ∧
    cut_supervisions c = [supervision] ∧
    sup_custom supervision = Some custom ∧
    texts custom = ["r"; "h"] ∧
    pre_texts custom = ["pre ref"; "pre hyp"] ∧
    post_texts custom = ["post ref"; "post ref"] ∧
    seg_post_hyp (sample_segment "r" "h") = "post hyp".
Proof. do 3 eexists. split_and!; vm_compute; reflexivity. Qed.

(** * Further properties *)

(** ** The batching loop of [main] *)

Lemma M_bind_ext {A B} (m : M A) (f g : A → M B) :
  (∀ a, f a = g a) → (m ≫= f) = (m ≫= g).
Proof.
  intros Hfg. destruct m as [t [a|e]]; unfold mbind, M_bind; simpl; [|done].
  by rewrite Hfg.
Qed.

Lemma M_bind_unit_r (m : M unit) : (m ≫= λ _, mret ()) = m.
Proof.
  rewrite <- (M_bind_ret_r m) at 2. apply M_bind_ext. by intros [].
Qed.

Lemma succ_mod_lt (i n r : nat) :
  (i mod S n = r → r < n → S i mod S n = S r)%nat.
Proof.
  intros Hr Hlt. symmetry. apply (Nat.mod_unique _ _ (i / S n)); [lia|].
  pose proof (Nat.div_mod_eq i (S n)). lia.
Qed.

Lemma succ_mod_wrap (i n : nat) : (i mod S n = n → S i mod S n = 0)%nat.
Proof.
  intros Hr. symmetry. apply (Nat.mod_unique _ _ (S (i / S n))); [lia|].
  pose proof (Nat.div_mod_eq i (S n)). lia.
Qed.

Lemma main_step_lt process batch_size batch_cuts i cut :
  (length batch_cuts < Z.to_nat batch_size)%nat →
  main_step process batch_size batch_cuts (i, cut) = mret (batch_cuts ++ [cut]).
Proof.
  intros Hlt. unfold main_step. by rewrite bool_decide_eq_true_2 by lia.
Qed.

Lemma main_step_ge process batch_size batch_cuts i cut :
  (Z.to_nat batch_size ≤ length batch_cuts)%nat →
  main_step process batch_size batch_cuts (i, cut) =
    (process batch_cuts;;
     log INFO ("Number of cuts have been loaded is " +:+ pretty i);;
     mret []).
Proof.
  intros Hge. unfold main_step. by rewrite bool_decide_eq_false_2 by lia.
Qed.

Lemma run_calls_cons_Some process batch_cuts i calls :
  run_calls process ((batch_cuts, Some i) :: calls) =
    (process batch_cuts;;
     log INFO ("Number of cuts have been loaded is " +:+ pretty i);;
     run_calls process calls).
Proof.
  unfold run_calls. cbn [foldM].
  change (run_call process () (batch_cuts, Some i)) with
    (process batch_cuts;;
     log INFO ("Number of cuts have been loaded is " +:+ pretty i)).
  rewrite M_bind_assoc. apply M_bind_ext. intros [].
  apply M_bind_ext. by intros [].
Qed.

Lemma main_loop_calls_from batch_size batch_cuts i raw_cuts :
  (length batch_cuts ≤ Z.to_nat batch_size)%nat →
  (i mod S (Z.to_nat batch_size))%nat = length batch_cuts →
  ∃ calls,
    (∀ process,
       (foldM (main_step process batch_size) batch_cuts
          (enumerate_from i raw_cuts) ≫= λ batch_cuts,
        if bool_decide (length batch_cuts ≠ 0%nat) then process batch_cuts
        else mret ()) = run_calls process calls) ∧
    mjoin calls.*1 =
      batch_cuts ++
      (filter (λ ic : nat * MonoCut,
                 (ic.1 mod S (Z.to_nat batch_size))%nat ≠ Z.to_nat batch_size)
         (enumerate_from i raw_cuts)).*2 ∧
    Forall (λ call : list MonoCut * option nat,
              match call.2 with
              | Some _ => length call.1 = Z.to_nat batch_size
              | None => (1 ≤ length call.1 ≤ Z.to_nat batch_size)%nat
              end) calls.
Proof.
  revert batch_cuts i.
  induction raw_cuts as [|cut raw_cuts IH]; intros batch_cuts i Hle Hmod.
  - destruct batch_cuts as [|c batch_cuts].
    + exists []. split_and!; [|done|constructor].
      intros process. cbn [enumerate_from foldM]. by rewrite M_bind_ret_l.
    + exists [(c :: batch_cuts, None)]. split_and!.
      * intros process. cbn [enumerate_from foldM]. rewrite M_bind_ret_l.
        unfold run_calls. cbn [foldM]. rewrite M_bind_ret_r.
        unfold run_call. cbn [fst snd]. by rewrite M_bind_unit_r.
      * simpl. by rewrite !app_nil_r.
      * constructor; [|constructor]. simpl in *. lia.
  - cbn [enumerate_from]. rewrite filter_cons. cbn [fst].
    destruct (decide (length batch_cuts < Z.to_nat batch_size)%nat)
      as [Hlt|Hge].
    + destruct (IH (batch_cuts ++ [cut]) (S i)) as (calls & Hrun & Hcat & Hsz).
      { rewrite length_app. simpl. lia. }
      { rewrite length_app. simpl. rewrite Nat.add_1_r.
        by apply succ_mod_lt. }
      exists calls. split_and!; [|..|done].
      * intros process. cbn [foldM]. rewrite main_step_lt by done.
        rewrite M_bind_ret_l. apply Hrun.
      * rewrite Hcat, decide_True by lia. simpl. by rewrite <- app_assoc.
    + assert (length batch_cuts = Z.to_nat batch_size) as Hfull by lia.
      destruct (IH [] (S i)) as (calls & Hrun & Hcat & Hsz).
      { simpl. lia. }
      { simpl. apply succ_mod_wrap. lia. }
      exists ((batch_cuts, Some i) :: calls). split_and!.
      * intros process. cbn [foldM]. rewrite main_step_ge by lia.
        rewrite !M_bind_assoc, run_calls_cons_Some.
        apply M_bind_ext. intros []. rewrite ?M_bind_assoc.
        apply M_bind_ext. intros []. rewrite M_bind_ret_l. apply Hrun.
      * change (mjoin ((batch_cuts, Some i) :: calls).*1) with
          (batch_cuts ++ mjoin calls.*1).
        by rewrite Hcat, decide_False by lia.
      * constructor; [by simpl|done].
Qed.

(** X1. For every batch size, [main] makes a fixed sequence of calls of
    [process_one_batch]. The cuts in those batches, taken together, are
    the cuts of the stream at the positions [i] with
    [i mod (batch_size + 1) ≠ batch_size], in stream order: every cut that
    arrives when the batch is full is left out. A batch processed inside
    the loop has exactly [batch_size] cuts; the batch processed after the
    loop has between 1 and [batch_size]. (A batch size below 0 counts as
    0.) *)
Theorem main_loop_batches batch_size raw_cuts :
  ∃ calls,
    (∀ process,
       main_loop process batch_size raw_cuts =
         (log INFO "Start processing...";; run_calls process calls)) ∧
    mjoin calls.*1 = kept_cuts (Z.to_nat batch_size) raw_cuts ∧
    Forall (λ call : list MonoCut * option nat,
              match call.2 with
              | Some _ => length call.1 = Z.to_nat batch_size
              | None => (1 ≤ length call.1 ≤ Z.to_nat batch_size)%nat
              end) calls.
Proof.
  destruct (main_loop_calls_from batch_size [] 0 raw_cuts)
    as (calls & Hrun & Hcat & Hsz); [simpl; lia|apply Nat.Div0.mod_0_l|].
  exists calls. split_and!; [|done..].
  intros process. unfold main_loop. apply M_bind_ext. intros [].
  apply Hrun.
Qed.

Lemma foldM_app {A B} (f : B → A → M B) (b : B) (l1 l2 : list A) :
  foldM f b (l1 ++ l2) = foldM f b l1 ≫= λ b', foldM f b' l2.
Proof.
  revert b. induction l1 as [|x l1 IH]; intros b.
  - cbn [app foldM]. by rewrite M_bind_ret_l.
  - cbn [app foldM]. rewrite M_bind_assoc. apply M_bind_ext. intros b'.
    apply IH.
Qed.

Lemma main_loop_fill process batch_size batch_cuts i raw_cuts :
  (length batch_cuts + length raw_cuts ≤ Z.to_nat batch_size)%nat →
  foldM (main_step process batch_size) batch_cuts (enumerate_from i raw_cuts) =
    mret (batch_cuts ++ raw_cuts).
Proof.
  revert batch_cuts i.
  induction raw_cuts as [|cut raw_cuts IH]; intros batch_cuts i Hlen.
  - simpl. by rewrite app_nil_r.
  - cbn [enumerate_from foldM]. simpl in Hlen.
    rewrite main_step_lt, M_bind_ret_l by lia.
    rewrite IH by (rewrite length_app; simpl; lia).
    by rewrite <- app_assoc.
Qed.

(** X2. A stream with at most [batch_size] cuts is processed whole in one
    call of [process_one_batch], made after the loop; for the empty stream
    [process_one_batch] is not called. *)
Theorem main_loop_single_batch process batch_size raw_cuts :
  Z.of_nat (length raw_cuts) ≤ batch_size →
  main_loop process batch_size raw_cuts =
    (log INFO "Start processing...";;
     if bool_decide (raw_cuts = []) then mret () else process raw_cuts).
Proof.
  intros Hlen. unfold main_loop, enumerate.
  rewrite main_loop_fill by (simpl; lia). apply M_bind_ext. intros [].
  rewrite M_bind_ret_l. simpl. by destruct raw_cuts.
Qed.

Lemma main_loop_single_batch_witness :
  main_loop (λ _, mret ()) 2 [cut_a; cut_b] =
    (log INFO "Start processing...";;
     if bool_decide ([cut_a; cut_b] = []) then mret () else mret ()).
Proof. apply (main_loop_single_batch (λ _, mret ())). simpl. lia. Defined.

Lemma main_loop_drop_all process batch_size i raw_cuts :
  batch_size ≤ 0 →
  (foldM (main_step process batch_size) [] (enumerate_from i raw_cuts) ≫=
   λ batch_cuts,
     if bool_decide (length batch_cuts ≠ 0%nat) then process batch_cuts
     else mret ()) =
  run_calls process ((λ ic : nat * MonoCut, ([], Some ic.1)) <$>
                     enumerate_from i raw_cuts).
Proof.
  intros Hle. revert i. induction raw_cuts as [|cut raw_cuts IH]; intros i.
  - cbn [enumerate_from foldM]. by rewrite M_bind_ret_l.
  - cbn [enumerate_from foldM fmap list_fmap fst].
    rewrite main_step_ge by (simpl; lia).
    rewrite !M_bind_assoc, run_calls_cons_Some.
    apply M_bind_ext. intros []. rewrite ?M_bind_assoc.
    apply M_bind_ext. intros []. rewrite M_bind_ret_l. apply IH.
Qed.

(** X3. With a batch size of 0 or less no cut ever enters a batch: for
    every cut of the stream [main] calls [process_one_batch] on the empty
    batch and logs the position of the cut, and nothing is processed after
    the loop. *)
Theorem main_loop_nonpositive_batch_size process batch_size raw_cuts :
  batch_size ≤ 0 →
  main_loop process batch_size raw_cuts =
    (log INFO "Start processing...";;
     run_calls process
       ((λ ic : nat * MonoCut, ([], Some ic.1)) <$> enumerate raw_cuts)).
Proof.
  intros Hle. unfold main_loop. apply M_bind_ext. intros [].
  by apply main_loop_drop_all.
Qed.

Lemma main_loop_nonpositive_batch_size_witness :
  main_loop (λ _, mret ()) 0 [cut_a; cut_b] =
    (log INFO "Start processing...";;
     run_calls (λ _, mret ()) [([], Some 0%nat); ([], Some 1%nat)]).
Proof.
  apply (main_loop_nonpositive_batch_size (λ _, mret ()) 0 [cut_a; cut_b]).
  lia.
Defined.

Lemma main_loop_batch_length process batch_size batch_cuts i raw_cuts batch' :
  (length batch_cuts ≤ Z.to_nat batch_size)%nat →
  outcome (foldM (main_step process batch_size) batch_cuts
             (enumerate_from i raw_cuts)) = Return batch' →
  length batch' =
    ((length batch_cuts + length raw_cuts) mod S (Z.to_nat batch_size))%nat.
Proof.
  revert batch_cuts i.
  induction raw_cuts as [|cut raw_cuts IH]; intros batch_cuts i Hle.
  - intros [= <-]. rewrite Nat.add_0_r. symmetry. apply Nat.mod_small. lia.
  - cbn [enumerate_from foldM length].
    destruct (decide (length batch_cuts < Z.to_nat batch_size)%nat)
      as [Hlt|Hge].
    + rewrite main_step_lt, M_bind_ret_l by done. intros Hrun.
      apply IH in Hrun; [|rewrite length_app; simpl; lia].
      rewrite Hrun, length_app. cbn [length]. f_equal. lia.
    + rewrite main_step_ge by lia. unfold outcome.
      destruct (process batch_cuts) as [t [[]|e]]; [|done].
      rewrite M_bind_assoc, M_bind_return. unfold log.
      rewrite M_bind_assoc, M_bind_emit, M_bind_ret_l. cbn [snd].
      intros Hrun.
      apply IH in Hrun; [|simpl; lia]. rewrite Hrun. cbn [length].
      replace (length batch_cuts + S (length raw_cuts))%nat with
        (length raw_cuts + 1 * S (Z.to_nat batch_size))%nat by lia.
      by rewrite Nat.Div0.mod_add.
Qed.

Lemma main_loop_returns_inv process batch_size raw_cuts :
  (length raw_cuts mod S (Z.to_nat batch_size))%nat = 0%nat →
  outcome (main_loop process batch_size raw_cuts) = Return () →
  ∃ t,
    foldM (main_step process batch_size) [] (enumerate raw_cuts) =
      (t, Return []) ∧
    trace (main_loop process batch_size raw_cuts) =
      Log INFO "Start processing..." :: t.
Proof.
  intros Hmod. unfold main_loop, log.
  pose proof (main_loop_batch_length process batch_size [] 0 raw_cuts)
    as Hlen.
  unfold enumerate, outcome, trace in *.
  destruct (foldM _ _ _) as [t [batch'|e]]; rewrite M_bind_emit; [|done].
  intros _. specialize (Hlen batch'). cbn [length Nat.add snd] in Hlen.
  rewrite Hmod in Hlen. destruct batch' as [|c batch'].
  - exists t. split; [done|]. rewrite M_bind_return. simpl.
    by rewrite app_nil_r.
  - specialize (Hlen ltac:(lia) eq_refl). done.
Qed.

(** X4. An exception raised by [process_one_batch] on any batch ends
    [main] with that exception, wherever the batch is in the stream. The
    stream is [pre ++ batch ++ rest]: [pre] is what the batches before hold,
    with the cuts dropped between them, and [main] goes through it without
    exception; [batch] is either full and followed by a cut, whose arrival
    has it processed inside the loop, or it is the batch of 1 to
    [batch_size] cuts left at the end of the stream, processed after the
    loop. The run is then the run on [pre] followed by the failed call: its
    trace stops with the trace of that call, and the cuts of [rest] do not
    matter. *)
Theorem main_loop_stops_at_exception process batch_size pre batch rest e :
  (length pre mod S (Z.to_nat batch_size))%nat = 0%nat →
  (length batch = Z.to_nat batch_size ∧ rest ≠ []) ∨
  ((1 ≤ length batch ≤ Z.to_nat batch_size)%nat ∧ rest = []) →
  outcome (main_loop process batch_size pre) = Return () →
  outcome (process batch) = Raise e →
  main_loop process batch_size (pre ++ batch ++ rest) =
    (trace (main_loop process batch_size pre) ++ trace (process batch),
     Raise e).
Proof.
  intros Hmod Hbatch Hpre Hraise.
  destruct (main_loop_returns_inv _ _ _ Hmod Hpre) as (t & Hfold & ->).
  unfold main_loop, enumerate in *.
  rewrite enumerate_from_app, foldM_app, Hfold.
  unfold log. rewrite M_bind_emit, M_bind_assoc, M_bind_return.
  assert ((foldM (main_step process batch_size) []
             (enumerate_from (0 + length pre) (batch ++ rest)) ≫=
           λ batch_cuts,
             if bool_decide (length batch_cuts ≠ 0%nat)
             then process batch_cuts else mret ()) =
          (trace (process batch), Raise e)) as ->; [|done].
  unfold outcome, trace in *.
  rewrite enumerate_from_app, foldM_app.
  rewrite main_loop_fill by (simpl; lia). rewrite M_bind_ret_l.
  cbn [app]. destruct Hbatch as [[Hlen Hrest]|[Hlen ->]].
  - destruct rest as [|cut rest]; [done|].
    cbn [enumerate_from foldM]. rewrite main_step_ge by lia.
    destruct (process batch) as [t' r]. simpl in Hraise. by subst r.
  - cbn [enumerate_from foldM]. rewrite M_bind_ret_l.
    rewrite bool_decide_eq_true_2 by lia.
    destruct (process batch) as [t' r]. simpl in Hraise. by subst r.
Qed.

Lemma main_loop_stops_at_exception_witness :
  main_loop (failing_on "d") 1 ([cut_a; cut_b] ++ [cut_d] ++ [cut_c]) =
    (trace (main_loop (failing_on "d") 1 [cut_a; cut_b]) ++
       trace (failing_on "d" [cut_d]),
     Raise IndexError).
Proof.
  apply (main_loop_stops_at_exception (failing_on "d") 1
    [cut_a; cut_b] [cut_d] [cut_c] IndexError).
  - reflexivity.
  - left. split; [reflexivity|discriminate].
  - vm_compute. reflexivity.
  - vm_compute. reflexivity.
Defined.

(** ** [write] *)

Lemma bind_outcome {A B} (m : M A) (f : A → M B) :
  (m ≫= f).2 = match m.2 with Return a => (f a).2 | Raise e => Raise e end.
Proof. by destruct m as [t [a|e]]. Qed.

Lemma write_segment_outcome current_cut cut_indexes st seg :
  is_Some (cut_segment_index st !! cut_id current_cut) →
  match cut_supervisions current_cut !! cut_indexes.2 with
  | Some sup =>
      ∃ st' id,
        (write_segment current_cut cut_indexes st seg).2 = Return st' ∧
        is_Some (cut_segment_index st' !! cut_id current_cut) ∧
        cut_list st' = cut_list st ++ [segment_cut id current_cut sup seg]
  | None => (write_segment current_cut cut_indexes st seg).2 = Raise IndexError
  end.
Proof.
  intros [n Hn]. unfold write_segment. rewrite Hn.
  destruct (cut_supervisions current_cut !! cut_indexes.2) as [sup|]; [|done].
  eexists _, _. split_and!; [done| |done]. simpl. by rewrite lookup_insert_eq.
Qed.

Lemma write_segments_outcome current_cut cut_indexes segments st :
  is_Some (cut_segment_index st !! cut_id current_cut) →
  match cut_supervisions current_cut !! cut_indexes.2 with
  | Some sup =>
      ∃ st' new,
        (foldM (write_segment current_cut cut_indexes) st segments).2 =
          Return st' ∧
        cut_list st' = cut_list st ++ new ∧
        Forall2 made_from
          ((λ seg, (current_cut, cut_indexes.2, seg)) <$> segments) new
  | None =>
      (foldM (write_segment current_cut cut_indexes) st segments).2 =
        if bool_decide (segments = []) then Return st else Raise IndexError
  end.
Proof.
  revert st. induction segments as [|seg segments IH]; intros st Hkey.
  - destruct (cut_supervisions current_cut !! cut_indexes.2) as [sup|];
      [|done].
    exists st, []. split_and!; [done|by rewrite app_nil_r|constructor].
  - cbn [foldM]. rewrite bind_outcome.
    pose proof (write_segment_outcome current_cut cut_indexes st seg Hkey)
      as Hseg.
    specialize (IH).
    destruct (cut_supervisions current_cut !! cut_indexes.2) as [sup|] eqn:Hsup.
    + destruct Hseg as (st1 & id & -> & Hkey1 & Hlist1).
      destruct (IH st1 Hkey1) as (st' & new & Hrun & Hlist & Hmade).
      exists st', (segment_cut id current_cut sup seg :: new).
      split_and!; [done| |].
      * rewrite Hlist, Hlist1. by rewrite <- app_assoc.
      * constructor; [|done]. by exists sup, id.
    + by rewrite Hseg.
Qed.

Lemma valid_item_dec batch_cuts item :
  valid_item batch_cuts item ∨ ¬ valid_item batch_cuts item.
Proof.
  unfold valid_item.
  destruct (batch_cuts !! item.1.1) as [current_cut|] eqn:Hcut;
    [|right; by intros (? & ? & _)].
  destruct item.2 as [|seg segments] eqn:Hsegs; [left; by eauto|].
  destruct (cut_supervisions current_cut !! item.1.2) as [sup|] eqn:Hsup.
  - left. eauto.
  - right. intros (c & [= <-] & [?|[??]]); [done|]. congruence.
Qed.

Lemma write_item_outcome batch_cuts st item :
  (valid_item batch_cuts item →
   ∃ st' new,
     (write_item batch_cuts st item).2 = Return st' ∧
     cut_list st' = cut_list st ++ new ∧
     Forall2 made_from (produced batch_cuts [item]) new) ∧
  (¬ valid_item batch_cuts item →
   (write_item batch_cuts st item).2 = Raise IndexError).
Proof.
  unfold valid_item, write_item, produced. simpl. rewrite app_nil_r.
  destruct (batch_cuts !! item.1.1) as [current_cut|] eqn:Hcut;
    [|split; [by intros (? & ? & _)|done]].
  set (st0 := if bool_decide (cut_segment_index st !! cut_id current_cut = None)
              then _ else st).
  assert (is_Some (cut_segment_index st0 !! cut_id current_cut)) as Hkey.
  { subst st0. case_bool_decide as Hnone.
    - simpl. by rewrite lookup_insert_eq.
    - by destruct (cut_segment_index st !! cut_id current_cut). }
  assert (cut_list st0 = cut_list st) as Hlist0.
  { subst st0. by case_bool_decide. }
  pose proof (write_segments_outcome current_cut item.1 item.2 st0 Hkey)
    as Hsegs.
  destruct (cut_supervisions current_cut !! item.1.2) as [sup|] eqn:Hsup.
  - split; [|intros []; eauto].
    intros _. destruct Hsegs as (st' & new & Hrun & Hlist & Hmade).
    exists st', new. by rewrite Hrun, Hlist, Hlist0.
  - rewrite Hsegs. split.
    + intros (c & [= <-] & [->|[??]]); [|congruence].
      exists st0, []. split_and!; [done|by rewrite app_nil_r|constructor].
    + intros Hinv. rewrite bool_decide_eq_false_2; [done|].
      intros Hnil. apply Hinv. eauto.
Qed.

Lemma write_items_outcome batch_cuts results st :
  (Forall (valid_item batch_cuts) results →
   ∃ st' new,
     (foldM (write_item batch_cuts) st results).2 = Return st' ∧
     cut_list st' = cut_list st ++ new ∧
     Forall2 made_from (produced batch_cuts results) new) ∧
  (¬ Forall (valid_item batch_cuts) results →
   (foldM (write_item batch_cuts) st results).2 = Raise IndexError).
Proof.
  revert st. induction results as [|item results IH]; intros st.
  - split; [|intros []; constructor].
    intros _. exists st, []. split_and!; [done|by rewrite app_nil_r|constructor].
  - cbn [foldM]. rewrite bind_outcome.
    destruct (write_item_outcome batch_cuts st item) as [Hok Hbad].
    destruct (valid_item_dec batch_cuts item) as [Hvalid|Hinvalid].
    + destruct (Hok Hvalid) as (st1 & new1 & -> & Hlist1 & Hmade1).
      destruct (IH st1) as [IHok IHbad]. split.
      * intros [_ Hrest]%Forall_cons.
        destruct (IHok Hrest) as (st' & new & Hrun & Hlist & Hmade).
        exists st', (new1 ++ new). split_and!; [done| |].
        -- by rewrite Hlist, Hlist1, app_assoc.
        -- rewrite produced_cons. by apply Forall2_app.
      * intros Hnot. apply IHbad. intros Hrest. apply Hnot. by constructor.
    + rewrite (Hbad Hinvalid). split; [|done].
      by intros [? _]%Forall_cons.
Qed.

Lemma Forall_valid_item_dec batch_cuts results :
  Forall (valid_item batch_cuts) results ∨
  ¬ Forall (valid_item batch_cuts) results.
Proof.
  induction results as [|item results [IH|IH]].
  - left. constructor.
  - destruct (valid_item_dec batch_cuts item);
      [left; by constructor|right; by intros [??]%Forall_cons].
  - right. by intros [??]%Forall_cons.
Qed.

Lemma write_cuts_valid_returns batch_cuts results :
  Forall (valid_item batch_cuts) results →
  ∃ cuts,
    outcome (write_cuts batch_cuts results) = Return cuts ∧
    Forall2 made_from (produced batch_cuts results) cuts.
Proof.
  intros Hvalid. unfold write_cuts, outcome. rewrite bind_outcome.
  destruct (proj1 (write_items_outcome batch_cuts results write_init) Hvalid)
    as (st' & new & -> & Hlist & Hmade).
  exists (cut_list st'). split; [done|]. by rewrite Hlist.
Qed.

(** X5. The first loop of [write] ends normally exactly when every item of
    [results] has a cut index inside the batch and, if it has a segment, a
    supervision index inside that cut. Otherwise it raises [IndexError];
    it raises nothing else: the counter of a cut id is always set before
    it is read. *)
Theorem write_cuts_returns_iff_valid batch_cuts results :
  (Forall (valid_item batch_cuts) results ↔
   ∃ cuts, outcome (write_cuts batch_cuts results) = Return cuts) ∧
  (∀ e, outcome (write_cuts batch_cuts results) = Raise e → e = IndexError).
Proof.
  unfold write_cuts, outcome. rewrite bind_outcome.
  destruct (write_items_outcome batch_cuts results write_init) as [Hok Hbad].
  destruct (Forall_valid_item_dec batch_cuts results) as [Hvalid|Hinvalid].
  - destruct (Hok Hvalid) as (st' & new & -> & _). split; [|done].
    split; [by eexists|done].
  - rewrite (Hbad Hinvalid). split; [|by intros e [= <-]].
    split; [done|by intros [? ?]].
Qed.

Lemma write_cuts_returns_iff_valid_witness :
  ∃ cuts, outcome (write_cuts [cut_a; cut_b]
            [((0, 0)%nat, [sample_segment "r" "h"]); ((1, 7)%nat, [])]) =
          Return cuts.
Proof.
  apply (proj1 (write_cuts_returns_iff_valid [cut_a; cut_b]
    [((0, 0)%nat, [sample_segment "r" "h"]); ((1, 7)%nat, [])])).
  apply Forall_cons_2; [|apply Forall_cons_2; [|apply Forall_nil_2]].
  - exists cut_a. split; [reflexivity|]. right. eexists. reflexivity.
  - exists cut_b. split; [reflexivity|]. left. reflexivity.
Defined.

Lemma write_closed_form batch_cuts results :
  write batch_cuts results =
    match outcome (write_cuts batch_cuts results) with
    | Return cuts =>
        (Log DEBUG "Writing results." ::
           (foldM (write_one (length cuts)) () (enumerate cuts)).1 ++
           [Log DEBUG "Write results done."],
         Return ())
    | Raise e => ([], Raise e)
    end.
Proof.
  unfold write, outcome.
  pose proof (write_cuts_no_events batch_cuts results) as Hno.
  unfold trace in Hno.
  destruct (write_cuts batch_cuts results) as [t [cuts|e]];
    simpl in Hno; subst t; [|done].
  rewrite M_bind_return. unfold log. rewrite M_bind_emit.
  destruct (write_loop_written (length cuts) 0 cuts) as (t & Hrun & Ht).
  unfold enumerate. rewrite Hrun, M_bind_return. simpl. by rewrite Hrun.
Qed.

(** X6. [write] hands records to the writer only after its first loop has
    gone through all of [results]: [write] raises an exception exactly when
    the first loop raises it, and then its trace is empty, so no record of
    the batch has been written. *)
Theorem write_all_or_nothing batch_cuts results e :
  (outcome (write batch_cuts results) = Raise e ↔
   outcome (write_cuts batch_cuts results) = Raise e) ∧
  (outcome (write batch_cuts results) = Raise e →
   trace (write batch_cuts results) = []).
Proof.
  rewrite write_closed_form.
  destruct (outcome (write_cuts batch_cuts results)) as [cuts|e'];
    unfold outcome, trace; simpl; naive_solver.
Qed.

Lemma write_all_or_nothing_witness :
  outcome (write [cut_a] [((0, 0)%nat, [sample_segment "r" "h"]);
                          ((3, 0)%nat, [sample_segment "r" "h"])]) =
    Raise IndexError ∧
  trace (write [cut_a] [((0, 0)%nat, [sample_segment "r" "h"]);
                        ((3, 0)%nat, [sample_segment "r" "h"])]) = [].
Proof.
  split.
  - apply (proj1 (write_all_or_nothing [cut_a]
      [((0, 0)%nat, [sample_segment "r" "h"]);
       ((3, 0)%nat, [sample_segment "r" "h"])] IndexError)).
    vm_compute. reflexivity.
  - apply (proj2 (write_all_or_nothing [cut_a]
      [((0, 0)%nat, [sample_segment "r" "h"]);
       ((3, 0)%nat, [sample_segment "r" "h"])] IndexError)).
    vm_compute. reflexivity.
Defined.

Lemma write_loop_flags len n (cuts : list MonoCut) :
  (n + length cuts)%nat = len →
  flush_flags (foldM (write_one len) () (enumerate_from n cuts)).1 =
    replicate (length cuts - 1) false ++
    (if bool_decide (cuts = []) then [] else [true]) ∧
  written_cuts (foldM (write_one len) () (enumerate_from n cuts)).1 = cuts.
Proof.
  revert n. induction cuts as [|c cuts IH]; intros n Hlen; [done|].
  cbn [enumerate_from foldM].
  change (write_one len () (n, c)) with
    (emit (WriterWrite c (bool_decide (Z.of_nat n = Z.of_nat len - 1)))).
  rewrite M_bind_emit. cbn [fst flush_flags written_cuts omap list_omap].
  simpl in Hlen. destruct (IH (S n)) as [IHf IHw]; [lia|].
  fold (flush_flags (foldM (write_one len) () (enumerate_from (S n) cuts)).1).
  fold (written_cuts (foldM (write_one len) () (enumerate_from (S n) cuts)).1).
  rewrite IHf, IHw. split; [|done].
  rewrite (bool_decide_eq_false_2 (c :: cuts = [])) by done.
  destruct cuts as [|c' cuts].
  - simpl. rewrite bool_decide_eq_true_2 by (simpl in *; lia). done.
  - rewrite bool_decide_eq_false_2 by (simpl in *; lia).
    rewrite (bool_decide_eq_false_2 (c' :: cuts = [])) by done.
    simpl. by rewrite Nat.sub_0_r.
Qed.

(** X7. Among the writer calls of [write] only the last one asks for a
    flush: the [flush] arguments are false for every record but the last
    and true for the last. *)
Theorem write_flushes_on_last_record_only batch_cuts results :
  flush_flags (trace (write batch_cuts results)) =
    replicate (length (written_cuts (trace (write batch_cuts results))) - 1)
      false ++
    (if bool_decide (written_cuts (trace (write batch_cuts results)) = [])
     then [] else [true]).
Proof.
  rewrite write_closed_form. unfold trace.
  destruct (outcome (write_cuts batch_cuts results)) as [cuts|e]; [|done].
  cbn [fst]. unfold flush_flags, written_cuts.
  cbn [omap list_omap]. rewrite !omap_app. cbn [omap list_omap].
  rewrite !app_nil_r.
  destruct (write_loop_flags (length cuts) 0 cuts) as [Hf Hw]; [done|].
  unfold flush_flags, written_cuts, enumerate in *. by rewrite Hf, Hw.
Qed.

Lemma produced_length batch_cuts results :
  Forall (valid_item batch_cuts) results →
  length (produced batch_cuts results) =
    sum_list_with (λ item : nat * nat * list Segment, length item.2) results.
Proof.
  induction 1 as [|item results (c & Hc & _) _ IH]; [done|].
  rewrite produced_cons, length_app, IH. simpl. f_equal.
  unfold produced. simpl. by rewrite Hc, app_nil_r, length_fmap.
Qed.

Lemma write_cuts_made_from batch_cuts results cuts :
  outcome (write_cuts batch_cuts results) = Return cuts →
  Forall (valid_item batch_cuts) results ∧
  Forall2 made_from (produced batch_cuts results) cuts.
Proof.
  unfold write_cuts, outcome. rewrite bind_outcome.
  destruct (write_items_outcome batch_cuts results write_init) as [Hok Hbad].
  destruct (Forall_valid_item_dec batch_cuts results) as [Hvalid|Hinvalid].
  - destruct (Hok Hvalid) as (st' & new & -> & Hlist & Hmade).
    intros [= <-]. by rewrite Hlist.
  - by rewrite (Hbad Hinvalid).
Qed.

(** X8. When [write] ends normally it has handed to the writer as many
    records as [results] has segments: one for each segment, none lost and
    none doubled. *)
Theorem write_one_record_per_segment batch_cuts results :
  outcome (write batch_cuts results) = Return () →
  length (written_cuts (trace (write batch_cuts results))) =
    sum_list_with (λ item : nat * nat * list Segment, length item.2) results.
Proof.
  rewrite write_written, write_closed_form.
  destruct (outcome (write_cuts batch_cuts results)) as [cuts|e] eqn:Hrun;
    [|done].
  intros _. apply write_cuts_made_from in Hrun as [Hvalid Hmade].
  by rewrite <- (Forall2_length _ _ _ Hmade), produced_length.
Qed.

Lemma write_one_record_per_segment_witness :
  length (written_cuts (trace (write [cut_a; cut_b]
    [((0, 0)%nat, [sample_segment "r" "h"; sample_segment "r2" "h2"]);
     ((1, 1)%nat, []); ((1, 1)%nat, [sample_segment "x" "y"])]))) = 3%nat.
Proof.
  apply (write_one_record_per_segment [cut_a; cut_b]
    [((0, 0)%nat, [sample_segment "r" "h"; sample_segment "r2" "h2"]);
     ((1, 1)%nat, []); ((1, 1)%nat, [sample_segment "x" "y"])]).
  vm_compute. reflexivity.
Defined.

(** X9. Every record that [write] hands to the writer carries the
    provenance of its segment: its supervision has the channel, language
    and speaker of the supervision of the original cut that the item of
    [results] points to and the id of the recording of that cut; the
    custom block has the matched texts [ref, hyp], the preceding context
    [pre_ref, pre_hyp] and the begin and end byte of the segment; and the
    record keeps the [text_path] of the original cut. *)
Theorem write_records_provenance batch_cuts results c :
  c ∈ written_cuts (trace (write batch_cuts results)) →
  ∃ current_cut j seg sup supervision custom,
    (current_cut, j, seg) ∈ produced batch_cuts results ∧
    cut_supervisions current_cut !! j = Some sup ∧
    cut_supervisions c = [supervision] ∧
    sup_channel supervision = sup_channel sup ∧
    sup_language supervision = sup_language sup ∧
    sup_speaker supervision = sup_speaker sup ∧
    sup_recording_id supervision = rec_id (cut_recording current_cut) ∧
    sup_custom supervision = Some custom ∧
    texts custom = [seg_ref seg; seg_hyp seg] ∧
    pre_texts custom = [seg_pre_ref seg; seg_pre_hyp seg] ∧
    begin_byte custom = seg_begin_byte seg ∧
    end_byte custom = seg_end_byte seg ∧
    cut_text_path c = cut_text_path current_cut.
Proof.
  rewrite write_written.
  destruct (outcome (write_cuts batch_cuts results)) as [cuts|e] eqn:Hrun;
    [|by intros ?%elem_of_nil].
  apply write_cuts_made_from in Hrun as [_ Hmade].
  intros [i Hi]%list_elem_of_lookup.
  destruct (Forall2_lookup_r _ _ _ _ _ Hmade Hi)
    as ([[current_cut j] seg] & Hp & sup & id & Hsup & ->).
  exists current_cut, j, seg, sup. eexists _, _.
  split_and!; try done. by eapply list_elem_of_lookup_2.
Qed.

Lemma write_records_provenance_witness :
  ∃ current_cut j seg sup supervision custom,
    (current_cut, j, seg) ∈ produced [cut_a; cut_b]
       [((1, 1)%nat, [sample_segment "r" "h"])] ∧
    cut_supervisions current_cut !! j = Some sup ∧
    cut_supervisions (segment_cut "b_0" cut_b
       (sample_supervision "b-1" ["world"]) (sample_segment "r" "h")) =
      [supervision] ∧
    sup_channel supervision = sup_channel sup ∧
    sup_language supervision = sup_language sup ∧
    sup_speaker supervision = sup_speaker sup ∧
    sup_recording_id supervision = rec_id (cut_recording current_cut) ∧
    sup_custom supervision = Some custom ∧
    texts custom = [seg_ref seg; seg_hyp seg] ∧
    pre_texts custom = [seg_pre_ref seg; seg_pre_hyp seg] ∧
    begin_byte custom = seg_begin_byte seg ∧
    end_byte custom = seg_end_byte seg ∧
    cut_text_path (segment_cut "b_0" cut_b
       (sample_supervision "b-1" ["world"]) (sample_segment "r" "h")) =
      cut_text_path current_cut.
Proof.
  apply (write_records_provenance [cut_a; cut_b]
    [((1, 1)%nat, [sample_segment "r" "h"])]).
  vm_compute. left.
Defined.

(** ** [load_data] *)

Lemma elem_of_enumerate_from {A} (n : nat) (l : list A) i x :
  (i, x) ∈ enumerate_from n l ↔ ∃ k, i = (n + k)%nat ∧ l !! k = Some x.
Proof.
  revert n. induction l as [|y l IH]; intros n; simpl.
  - split; [by intros ?%elem_of_nil|by intros (? & _ & ?)].
  - rewrite elem_of_cons, IH. split.
    + intros [[= -> ->]|(k & -> & Hk)].
      * exists 0%nat. split; [lia|done].
      * exists (S k). split; [lia|done].
    + intros ([|k] & -> & Hk); simpl in Hk.
      * left. injection Hk as ->. f_equal. lia.
      * right. exists k. split; [lia|done].
Qed.

Section cut_indexes.
Context {TS : TextSearch} {SO : SetOrder}.
Context (fs : gmap string string).

Lemma elem_of_sup_queries params i j l :
  (i, j) ∈ (omap (sup_query params i) l).*1 ↔
  ∃ sup, (j, sup) ∈ l ∧ sup_alignment sup ≠ [].
Proof.
  rewrite list_elem_of_fmap. split.
  - intros ([ij t] & [= <-] & Hq). apply list_elem_of_omap in Hq
      as ([j' sup] & Hin & Hq). unfold sup_query in Hq. simpl in Hq.
    case_bool_decide; [done|]. injection Hq as <- _. by exists sup.
  - intros (sup & Hin & Hal). eexists (_, _). split; [done|].
    apply list_elem_of_omap. exists (j, sup). split; [done|].
    unfold sup_query. simpl. by rewrite bool_decide_eq_false_2.
Qed.

Lemma elem_of_cut_queries params i i' j cut :
  (i', j) ∈ (cut_queries fs params i cut).*1 ↔
  i' = i ∧ isfile fs (cut_text_path cut) = true ∧
  ∃ sup, cut_supervisions cut !! j = Some sup ∧ sup_alignment sup ≠ [].
Proof.
  split.
  - intros Hin. assert (i' = i) as ->.
    { apply list_elem_of_fmap in Hin as (q & Hq & Hin).
      apply cut_queries_index in Hin. destruct q as [[??]?]. by simplify_eq/=. }
    revert Hin. unfold cut_queries.
    destruct (isfile fs (cut_text_path cut)); [|by intros ?%elem_of_nil].
    unfold enumerate. rewrite elem_of_sup_queries. intros (sup & Hin & Hal).
    apply elem_of_enumerate_from in Hin as (k & -> & Hk).
    split_and!; [done..|]. by exists sup.
  - intros (-> & Hf & sup & Hsup & Hal). unfold cut_queries. rewrite Hf.
    apply elem_of_sup_queries. exists sup. split; [|done].
    apply elem_of_enumerate_from. by exists j.
Qed.

Lemma elem_of_batch_queries_from params n batch i j :
  (i, j) ∈ (batch_queries_from fs params n batch).*1 ↔
  ∃ k cut sup,
    i = (n + k)%nat ∧ batch !! k = Some cut ∧
    isfile fs (cut_text_path cut) = true ∧
    cut_supervisions cut !! j = Some sup ∧ sup_alignment sup ≠ [].
Proof.
  unfold batch_queries_from. revert n.
  induction batch as [|cut batch IH]; intros n.
  - split; [by intros ?%elem_of_nil|by intros (? & ? & ? & _ & ? & _)].
  - cbn [enumerate_from fmap list_fmap mjoin list_join fst snd].
    rewrite fmap_app, elem_of_app, elem_of_cut_queries, IH. split.
    + intros [(-> & Hf & sup & Hsup & Hal)|(k & c & sup & -> & Hk & H')].
      * exists 0%nat, cut, sup. split_and!; [lia|done..].
      * exists (S k), c, sup. split_and!; [lia|done|apply H'..].
    + intros ([|k] & c & sup & -> & Hk & Hf & Hsup & Hal); simpl in Hk.
      * left. injection Hk as ->. split_and!; [lia|done|by exists sup].
      * right. exists k, c, sup. split_and!; [lia|done..].
Qed.

Lemma NoDup_sup_queries params i m (sups : list SupervisionSegment) :
  NoDup (omap (sup_query params i) (enumerate_from m sups)).*1.
Proof.
  revert m. induction sups as [|sup sups IH]; intros m; [constructor|].
  cbn [enumerate_from omap list_omap]. unfold sup_query at 1. simpl.
  case_bool_decide; [apply IH|].
  cbn [fmap list_fmap fst]. constructor; [|apply IH].
  rewrite elem_of_sup_queries. intros (sup' & Hin & _).
  apply elem_of_enumerate_from in Hin as (k & Hk & _). lia.
Qed.

Lemma NoDup_batch_queries_from params n batch :
  NoDup (batch_queries_from fs params n batch).*1.
Proof.
  unfold batch_queries_from. revert n.
  induction batch as [|cut batch IH]; intros n; [constructor|].
  cbn [enumerate_from fmap list_fmap mjoin list_join fst snd].
  rewrite fmap_app. apply NoDup_app. split_and!.
  - unfold cut_queries. destruct (isfile fs (cut_text_path cut));
      [apply NoDup_sup_queries|constructor].
  - intros [i j] Hin1 Hin2. apply elem_of_cut_queries in Hin1 as [-> _].
    apply list_elem_of_fmap in Hin2 as (q & Hq & Hin2).
    apply (batch_queries_from_index fs params (S n) batch) in Hin2.
    destruct q as [[i' j'] t]. simpl in *. injection Hq as <- <-. lia.
  - apply IH.
Qed.

(** X10. The cut indexes that [load_data] returns are exactly the pairs
    (i, j) such that cut i of the batch has its reference file on disk and
    its supervision j has a non-empty alignment; no pair occurs twice. *)
Theorem load_data_cut_indexes params w batch raw :
  outcome (load_data fs params batch w) = Return (Some raw) →
  NoDup (raw_cut_indexes raw) ∧
  ∀ i j,
    (i, j) ∈ raw_cut_indexes raw ↔
    ∃ cut sup,
      batch !! i = Some cut ∧ isfile fs (cut_text_path cut) = true ∧
      cut_supervisions cut !! j = Some sup ∧ sup_alignment sup ≠ [].
Proof.
  rewrite load_data_spec. unfold outcome. cbn [snd].
  case_bool_decide; [done|].
  destruct (doc_splits _ !! _); [|done].
  case_bool_decide; [|done]. intros [= <-]. cbn [raw_cut_indexes].
  split; [apply NoDup_batch_queries_from|].
  intros i j. unfold batch_queries. rewrite elem_of_batch_queries_from.
  split.
  - intros (k & cut & sup & -> & H'). by exists cut, sup.
  - intros (cut & sup & H'). by exists i, cut, sup.
Qed.
End cut_indexes.

Lemma load_data_cut_indexes_witness :
  ∃ raw,
    outcome (load_data (TS:=list_text_search) (SO:=elements_order)
               sample_fs (get_params 50) [cut_a; cut_b; cut_c; cut_d] 0) =
      Return (Some raw) ∧
    NoDup (raw_cut_indexes raw).
Proof.
  eexists. split; [vm_compute; reflexivity|].
  eapply proj1, (load_data_cut_indexes (TS:=list_text_search)
    (SO:=elements_order) sample_fs (get_params 50) 0
    [cut_a; cut_b; cut_c; cut_d]).
  vm_compute. reflexivity.
Defined.

(** ** [process_one_batch] *)

Lemma bind_trace {A B} (m : M A) (f : A → M B) :
  (m ≫= f).1 =
    m.1 ++ match m.2 with Return a => (f a).1 | Raise e => [] end.
Proof. destruct m as [t [a|e]]; unfold mbind, M_bind; simpl; by rewrite ?app_nil_r. Qed.

Lemma written_cuts_app (t1 t2 : list event) :
  written_cuts (t1 ++ t2) = written_cuts t1 ++ written_cuts t2.
Proof. apply omap_app. Qed.

Lemma driver_events_app (t1 t2 : list event) :
  driver_events (t1 ++ t2) = driver_events t1 ++ driver_events t2.
Proof. apply filter_app. Qed.

Lemma driver_events_load (t : list event) :
  Forall is_load_event t → driver_events t = [].
Proof.
  unfold driver_events. induction 1 as [|e t He _ IH]; [done|].
  rewrite filter_cons, IH. by destruct e.
Qed.

Lemma written_cuts_load (t : list event) :
  Forall is_load_event t → written_cuts t = [].
Proof.
  unfold written_cuts. induction 1 as [|e t He _ IH]; [done|].
  by destruct e.
Qed.

Lemma write_loop_events len n (cuts : list MonoCut) :
  Forall (λ e, ∃ c f, e = WriterWrite c f)
    (foldM (write_one len) () (enumerate_from n cuts)).1.
Proof.
  revert n. induction cuts as [|c cuts IH]; intros n; [constructor|].
  cbn [enumerate_from foldM].
  change (write_one len () (n, c)) with
    (emit (WriterWrite c (bool_decide (Z.of_nat n = Z.of_nat len - 1)))).
  rewrite M_bind_emit. cbn [fst]. constructor; [by eexists _, _|apply IH].
Qed.

Lemma driver_events_writes (t : list event) :
  Forall (λ e, ∃ c f, e = WriterWrite c f) t → driver_events t = t.
Proof.
  unfold driver_events. induction 1 as [|e t (c & f & ->) _ IH]; [done|].
  rewrite filter_cons, IH. done.
Qed.

Lemma driver_events_write batch_cuts results :
  Forall (λ e, ∃ c f, e = WriterWrite c f)
    (driver_events (trace (write batch_cuts results))).
Proof.
  rewrite write_closed_form. unfold trace.
  destruct (outcome (write_cuts batch_cuts results)) as [cuts|e];
    [|constructor].
  cbn [fst]. unfold enumerate.
  change (?e :: ?t ++ ?t') with ([e] ++ t ++ t').
  rewrite !driver_events_app.
  rewrite (driver_events_writes _ (write_loop_events _ _ _)).
  apply Forall_app. split; [constructor|].
  apply Forall_app. split; [apply write_loop_events|constructor].
Qed.

Section batch.
Context {TS : TextSearch} {SO : SetOrder}.
Context (fs : gmap string string).

Lemma load_data_load_events params w batch :
  Forall is_load_event (trace (load_data fs params batch w)).
Proof.
  rewrite load_data_spec. unfold trace. cbn [fst]. apply Forall_app. split.
  - apply loading_trace_load_events.
  - case_bool_decide; by repeat constructor.
Qed.

Lemma align_spec params n st :
  align params n st 0 =
    (align_trace,
     Return (align_queries st n (num_close_matches params)
               (segment_length params) (reference_length_difference params)
               (min_matched_query_ratio params))).
Proof. done. Qed.

Lemma split_spec params st alignments cut_indexes :
  split params st alignments cut_indexes 0 =
    (split_trace,
     Return (split_aligned_queries st alignments cut_indexes
               (preceding_context_length params) (timestamp_position params)
               (silence_length_to_break params) (min_duration params)
               (max_duration params) (expected_duration params)
               (max_error_rate params))).
Proof. done. Qed.

(** [process_one_batch] in closed form. *)
Lemma process_one_batch_spec params batch :
  process_one_batch fs params batch =
    match outcome (load_data fs params batch 0) with
    | Raise e => (trace (load_data fs params batch 0), Raise e)
    | Return None =>
        (trace (load_data fs params batch 0) ++
           [Log WARNING "Raw data is empty."], Return ())
    | Return (Some raw) =>
        if bool_decide (batch_alignments params raw = []) then
          (trace (load_data fs params batch 0) ++ align_trace ++
             [Log WARNING "Aligned data is empty."], Return ())
        else if bool_decide (batch_segments params raw = []) then
          (trace (load_data fs params batch 0) ++ align_trace ++
             split_trace ++ [Log WARNING "Splitted data is empty."],
           Return ())
        else
          (trace (load_data fs params batch 0) ++ align_trace ++
             split_trace ++
             trace (write batch (batch_segments params raw)),
           outcome (write batch (batch_segments params raw)))
    end.
Proof.
  unfold process_one_batch, outcome, trace.
  destruct (load_data fs params batch 0) as [t [[raw|]|e]]; cbn [fst snd];
    [|done..].
  rewrite M_bind_return. cbn beta iota. rewrite align_spec, M_bind_return.
  fold (batch_alignments params raw).
  destruct (batch_alignments params raw) as [|a al] eqn:Hal; [done|].
  rewrite (bool_decide_eq_false_2 (length (a :: al) = 0%nat)) by done.
  rewrite (bool_decide_eq_false_2 (a :: al = [])) by done.
  rewrite split_spec, M_bind_return. rewrite <- Hal.
  fold (batch_segments params raw).
  destruct (batch_segments params raw) as [|s sl] eqn:Hsl; [done|].
  rewrite (bool_decide_eq_false_2 (length (s :: sl) = 0%nat)) by done.
  rewrite (bool_decide_eq_false_2 (s :: sl = [])) by done.
  by destruct (write batch (s :: sl)).
Qed.
End batch.

Section batch_properties.
Context {TS : TextSearch} {SO : SetOrder}.
Context (fs : gmap string string).

(** X12. Whatever a batch holds, [process_one_batch] goes through its
    stages in order and at most once: the calls of the drivers and of the
    writer in its trace are either none, or one call of the alignment
    driver, or one call of the alignment driver, then one call of the
    segmentation driver, then only writer calls. *)
Theorem process_one_batch_stage_order params batch :
  driver_events (trace (process_one_batch fs params batch)) = [] ∨
  driver_events (trace (process_one_batch fs params batch)) =
    [AlignQueries] ∨
  ∃ writes,
    driver_events (trace (process_one_batch fs params batch)) =
      AlignQueries :: SplitAlignedQueries :: writes ∧
    Forall (λ e, ∃ c flush, e = WriterWrite c flush) writes.
Proof.
  rewrite process_one_batch_spec.
  pose proof (driver_events_load _ (load_data_load_events fs params 0 batch))
    as Hload.
  pose proof (driver_events_write batch) as Hwrite.
  unfold trace in *.
  destruct (outcome (load_data fs params batch 0)) as [[raw|]|e]; cbn [fst].
  - case_bool_decide; [|case_bool_decide]; cbn [fst];
      rewrite !driver_events_app, Hload.
    + right. by left.
    + right. right. exists []. by split; [|constructor].
    + right. right. eexists. split; [done|]. apply Hwrite.
  - left. by rewrite driver_events_app, Hload.
  - by left.
Qed.

(** X13. [process_one_batch] stops at the first stage that fails or gives
    nothing. An exception of [load_data] leaves it as it is, before any
    driver is called. When the alignment driver returns no alignment, the
    warning "Aligned data is empty." is logged and neither the
    segmentation driver nor the writer is called. When the segmentation
    driver returns no item, the warning "Splitted data is empty." is
    logged and the writer is not called. *)
Theorem process_one_batch_short_circuits params batch :
  (∀ e, outcome (load_data fs params batch 0) = Raise e →
     process_one_batch fs params batch =
       (trace (load_data fs params batch 0), Raise e) ∧
     driver_events (trace (process_one_batch fs params batch)) = []) ∧
  (∀ raw, outcome (load_data fs params batch 0) = Return (Some raw) →
     batch_alignments params raw = [] →
     process_one_batch fs params batch =
       (trace (load_data fs params batch 0) ++ align_trace ++
          [Log WARNING "Aligned data is empty."], Return ()) ∧
     driver_events (trace (process_one_batch fs params batch)) =
       [AlignQueries]) ∧
  (∀ raw, outcome (load_data fs params batch 0) = Return (Some raw) →
     batch_alignments params raw ≠ [] →
     batch_segments params raw = [] →
     process_one_batch fs params batch =
       (trace (load_data fs params batch 0) ++ align_trace ++ split_trace ++
          [Log WARNING "Splitted data is empty."], Return ()) ∧
     driver_events (trace (process_one_batch fs params batch)) =
       [AlignQueries; SplitAlignedQueries]).
Proof.
  pose proof (driver_events_load _ (load_data_load_events fs params 0 batch))
    as Hload.
  rewrite process_one_batch_spec. unfold trace in *. split_and!.
  - by intros e ->.
  - intros raw -> ->. rewrite bool_decide_eq_true_2 by done.
    split; [done|]. cbn [fst].
    by rewrite !driver_events_app, Hload.
  - intros raw -> Hal ->. rewrite bool_decide_eq_false_2 by done.
    rewrite bool_decide_eq_true_2 by done.
    split; [done|]. cbn [fst].
    by rewrite !driver_events_app, Hload.
Qed.

Lemma cut_indexes_valid params w batch raw results :
  outcome (load_data fs params batch w) = Return (Some raw) →
  Forall (λ item : nat * nat * list Segment, item.1 ∈ raw_cut_indexes raw)
    results →
  Forall (valid_item batch) results.
Proof.
  rewrite load_data_spec. unfold outcome. cbn [snd].
  case_bool_decide; [done|].
  destruct (doc_splits _ !! _); [|done].
  case_bool_decide; [|done]. intros [= <-]. cbn [raw_cut_indexes].
  intros Htags. eapply Forall_impl; [exact Htags|].
  intros [[i j] segs] Hin. simpl in Hin.
  apply elem_of_batch_queries_from in Hin
    as (k & cut & sup & -> & Hcut & _ & Hsup & _).
  exists cut. split; [done|]. right. by exists sup.
Qed.

(** X14. When the segmentation driver tags its items with cut indexes that
    [load_data] returned, [write] cannot fail on them: a batch with at
    least one alignment and one item of segments is processed to the end
    without exception, and the writer gets one record for each segment. *)
Theorem process_one_batch_completes params batch raw :
  outcome (load_data fs params batch 0) = Return (Some raw) →
  batch_alignments params raw ≠ [] →
  batch_segments params raw ≠ [] →
  Forall (λ item : nat * nat * list Segment, item.1 ∈ raw_cut_indexes raw)
    (batch_segments params raw) →
  outcome (process_one_batch fs params batch) = Return () ∧
  length (written_cuts (trace (process_one_batch fs params batch))) =
    sum_list_with (λ item : nat * nat * list Segment, length item.2)
      (batch_segments params raw).
Proof.
  intros Hload Hal Hseg Htags.
  pose proof (cut_indexes_valid _ _ _ _ _ Hload Htags) as Hvalid.
  pose proof (written_cuts_load _ (load_data_load_events fs params 0 batch))
    as Hnone.
  destruct (write_cuts_valid_returns batch (batch_segments params raw)
    Hvalid) as (cuts & Hcuts & Hmade).
  rewrite process_one_batch_spec, Hload.
  rewrite !bool_decide_eq_false_2 by done.
  change (outcome (?a, ?b)) with b. change (trace (?a, ?b)) with a.
  split.
  - rewrite write_closed_form. by rewrite Hcuts.
  - rewrite !written_cuts_app, Hnone, write_written, Hcuts.
    change (written_cuts align_trace) with (@nil MonoCut).
    change (written_cuts split_trace) with (@nil MonoCut).
    cbn [app].
    by rewrite <- (Forall2_length _ _ _ Hmade), produced_length.
Qed.
End batch_properties.

Lemma process_one_batch_short_circuits_witness :
  process_one_batch (TS:=list_text_search) (SO:=elements_order)
    sample_fs (get_params 50) [cut_a; cut_b] =
    (trace (load_data (TS:=list_text_search) (SO:=elements_order)
              sample_fs (get_params 50) [cut_a; cut_b] 0) ++
       align_trace ++ [Log WARNING "Aligned data is empty."], Return ()).
Proof.
  eapply proj1, (proj1 (proj2 (process_one_batch_short_circuits
    (TS:=list_text_search) (SO:=elements_order)
    sample_fs (get_params 50) [cut_a; cut_b]))).
  - vm_compute. reflexivity.
  - reflexivity.
Defined.

Lemma process_one_batch_completes_witness :
  ∃ raw,
    outcome (load_data
      (TS:=driving_text_search
             [((0, 0)%nat, [sample_segment "r" "h"; sample_segment "r2" "h2"]);
              ((1, 1)%nat, [sample_segment "x" "y"])])
      (SO:=elements_order) sample_fs (get_params 50) [cut_a; cut_b] 0) =
      Return (Some raw) ∧
    outcome (process_one_batch
      (TS:=driving_text_search
             [((0, 0)%nat, [sample_segment "r" "h"; sample_segment "r2" "h2"]);
              ((1, 1)%nat, [sample_segment "x" "y"])])
      (SO:=elements_order) sample_fs (get_params 50) [cut_a; cut_b]) =
      Return ().
Proof.
  eexists. split; [vm_compute; reflexivity|].
  eapply proj1, (process_one_batch_completes
    (TS:=driving_text_search
           [((0, 0)%nat, [sample_segment "r" "h"; sample_segment "r2" "h2"]);
            ((1, 1)%nat, [sample_segment "x" "y"])])
    (SO:=elements_order) sample_fs (get_params 50) [cut_a; cut_b]).
  - vm_compute. reflexivity.
  - vm_compute. discriminate.
  - vm_compute. discriminate.
  - apply Forall_cons_2; [left|].
    apply Forall_cons_2; [right; left|apply Forall_nil_2].
Defined.



(** ** [main] with [process_one_batch] *)

Section main_run.
Context {TS : TextSearch} {SO : SetOrder}.
Context (fs : gmap string string).

Lemma process_one_batch_nil params :
  process_one_batch fs params [] =
    ([Log DEBUG "Worker[0] loading cuts and books";
      Log WARNING "Raw data is empty."], Return ()).
Proof.
  rewrite process_one_batch_spec, load_data_spec.
  unfold outcome, trace, loading_trace, cited_paths. cbn.
  assert (set_iter (∅ : gset string) = []) as ->; [|done].
  apply Permutation_nil_r. by rewrite set_iter_perm, elements_empty.
Qed.

Lemma run_calls_cons process batch_cuts oi calls :
  run_calls process ((batch_cuts, oi) :: calls) =
    (process batch_cuts;;
     match oi with
     | Some i => log INFO ("Number of cuts have been loaded is " +:+ pretty i)
     | None => mret ()
     end;;
     run_calls process calls).
Proof.
  unfold run_calls. cbn [foldM].
  change (run_call process () (batch_cuts, oi)) with
    (process batch_cuts;;
     match oi with
     | Some i => log INFO ("Number of cuts have been loaded is " +:+ pretty i)
     | None => mret ()
     end).
  rewrite M_bind_assoc. apply M_bind_ext. intros [].
  apply M_bind_ext. by intros [].
Qed.

Lemma run_calls_empty_batches params (calls : list (list MonoCut * option nat)) :
  Forall (λ call, call.1 = []) calls →
  outcome (run_calls (process_one_batch fs params) calls) = Return () ∧
  written_cuts (trace (run_calls (process_one_batch fs params) calls)) = [].
Proof.
  unfold outcome, trace.
  induction 1 as [|[b oi] calls Hb _ [IHo IHt]]; [done|].
  simpl in Hb. subst b. rewrite run_calls_cons, process_one_batch_nil.
  rewrite M_bind_return. cbn [fst snd].
  rewrite bind_outcome, written_cuts_app, bind_trace, written_cuts_app.
  destruct oi as [i|]; [unfold log, emit|unfold mret, M_ret];
    cbn [fst snd]; by rewrite IHo, IHt.
Qed.

(** X16. With a batch size of 0 or less a run of [main] writes nothing:
    every cut of the stream only triggers [process_one_batch] on the empty
    batch, which logs "Raw data is empty."; the run ends normally and no
    record reaches the writer, whatever the stream holds. *)
Theorem main_nonpositive_batch_size_writes_nothing params raw_cuts :
  batch_size params ≤ 0 →
  outcome (main fs params raw_cuts) = Return () ∧
  written_cuts (trace (main fs params raw_cuts)) = [].
Proof.
  intros Hle. unfold main.
  assert (main_loop (process_one_batch fs params) (batch_size params)
            raw_cuts =
          (log INFO "Start processing...";;
           run_calls (process_one_batch fs params)
             ((λ ic : nat * MonoCut, ([], Some ic.1)) <$>
              enumerate raw_cuts))) as ->.
  { unfold main_loop. apply M_bind_ext. intros [].
    by apply main_loop_drop_all. }
  destruct (run_calls_empty_batches params
    ((λ ic : nat * MonoCut, ([], Some ic.1)) <$> enumerate raw_cuts))
    as [Ho Ht].
  { apply Forall_fmap, Forall_true. done. }
  unfold log. rewrite M_bind_emit. unfold outcome, trace in *.
  cbn [fst snd].
  change (written_cuts (Log ?l ?m :: ?t)) with (written_cuts t).
  by rewrite Ho, Ht.
Qed.
End main_run.

Lemma main_nonpositive_batch_size_writes_nothing_witness :
  written_cuts (trace (main (TS:=list_text_search) (SO:=elements_order)
    sample_fs (get_params 0) [cut_a; cut_b])) = [].
Proof.
  apply (main_nonpositive_batch_size_writes_nothing (TS:=list_text_search)
    (SO:=elements_order) sample_fs (get_params 0) [cut_a; cut_b]).
  simpl. lia.
Defined.

(** ** Claim C8: two runs on the same batch *)


Section two_runs.
Context {TS : TextSearch} (SO1 SO2 : SetOrder).
Context (fs : gmap string string).




End two_runs.



